(** * clia: the two utility scripts, embedded and verified

    - [openrouter.py]: fetches a model catalogue, normalizes it, scores every
      model and ranks the result in three views.
    - [npm-scan.py]: scrapes indicators of compromise (IOCs) from an advisory
      page and matches them against a [package-lock.json].

    Conventions of the embedding.
    - Python [str] is [string] (a sequence of bytes); [lower] and the regular
      expression classes act on the ASCII range.
    - Python [int] is [Z].  A Python [float] is a [pyfloat]: an exact
      rational number, [inf], [-inf] or [nan].  Arithmetic on the numbers is
      exact: rounding error and overflow are outside the model.
    - An uncaught exception is [None] (or the [Traceback] outcome of a
      script). *)

From Stdlib Require Import ZArith QArith Qround Lqa Lia Bool.
From Stdlib Require Import String Ascii List Permutation Sorted OrderedTypeEx.
Import ListNotations.

Local Open Scope string_scope.
Local Open Scope Z_scope.

(** ** Python [str] methods used by both scripts *)

Module PyStr.

Definition lower_ascii (c : ascii) : ascii :=
  let n := nat_of_ascii c in
  if ((65 <=? n) && (n <=? 90))%nat then ascii_of_nat (n + 32) else c.

(** [s.lower()] *)
Fixpoint lower (s : string) : string :=
  match s with
  | EmptyString => EmptyString
  | String c s' => String (lower_ascii c) (lower s')
  end.

(** [s.startswith(p)] *)
Fixpoint startswith (p s : string) : bool :=
  match p, s with
  | EmptyString, _ => true
  | String a p', String b s' => Ascii.eqb a b && startswith p' s'
  | String _ _, EmptyString => false
  end.

(** [p in s] *)
Fixpoint contains (p s : string) : bool :=
  startswith p s ||
  match s with
  | EmptyString => false
  | String _ s' => contains p s'
  end.

(** [s.endswith(p)] *)
Fixpoint endswith (p s : string) : bool :=
  String.eqb s p ||
  match s with
  | EmptyString => false
  | String _ s' => endswith p s'
  end.

(** [s.split(sep)] for a one-character separator: the list of segments. *)
Fixpoint split (sep : ascii) (s : string) : list string :=
  match s with
  | EmptyString => [EmptyString]
  | String c s' =>
      if Ascii.eqb c sep then EmptyString :: split sep s'
      else match split sep s' with
           | seg :: segs => String c seg :: segs
           | [] => [String c EmptyString]
           end
  end.

(** [s.split(sep, 1)[0]]: the text before the first separator, the whole
    string when there is none. *)
Fixpoint before (sep : ascii) (s : string) : string :=
  match s with
  | EmptyString => EmptyString
  | String c s' => if Ascii.eqb c sep then EmptyString else String c (before sep s')
  end.

(** [x or ""] for an optional string. *)
Definition or_empty (x : option string) : string :=
  match x with
  | Some s => s
  | None => EmptyString
  end.

End PyStr.

(** ** openrouter.py *)

Module OpenRouter.
Import PyStr.

Definition BASE_CTX : Z := 8000.
Definition CTX_CAP : Z := 524288.
Definition W_IN : Q := 0.5.
Definition W_OUT : Q := 0.5.

(** A float: a number, [inf] ([math.inf]), [-inf] or [nan]. *)
Inductive pyfloat : Type :=
| Fin (q : Q)
| Inf
| NInf
| NaN.

Coercion Fin : Q >-> pyfloat.

Definition Qltb (x y : Q) : bool := negb (Qle_bool y x).

(** [x < y] and [x == y] as Python evaluates them: false as soon as one
    side is [nan]. *)
Definition flt (x y : pyfloat) : bool :=
  match x, y with
  | Fin a, Fin b => Qltb a b
  | Fin _, Inf => true
  | NInf, Fin _ => true
  | NInf, Inf => true
  | _, _ => false
  end.

Definition feq (x y : pyfloat) : bool :=
  match x, y with
  | Fin a, Fin b => Qeq_bool a b
  | Inf, Inf => true
  | NInf, NInf => true
  | _, _ => false
  end.

(** [x * y] and [x + y]: [nan] spreads, [0 * inf] and [inf - inf] are
    [nan]. *)
Definition fmul (x y : pyfloat) : pyfloat :=
  let scaled (a : Q) (pos neg : pyfloat) : pyfloat :=
    match (a ?= 0)%Q with
    | Gt => pos
    | Lt => neg
    | Eq => NaN
    end in
  match x, y with
  | NaN, _ => NaN
  | _, NaN => NaN
  | Fin a, Fin b => Fin (a * b)
  | Fin a, Inf => scaled a Inf NInf
  | Inf, Fin a => scaled a Inf NInf
  | Fin a, NInf => scaled a NInf Inf
  | NInf, Fin a => scaled a NInf Inf
  | Inf, Inf => Inf
  | NInf, NInf => Inf
  | Inf, NInf => NInf
  | NInf, Inf => NInf
  end.

Definition fadd (x y : pyfloat) : pyfloat :=
  match x, y with
  | NaN, _ => NaN
  | _, NaN => NaN
  | Fin a, Fin b => Fin (a + b)
  | Inf, NInf => NaN
  | NInf, Inf => NaN
  | Inf, _ => Inf
  | _, Inf => Inf
  | NInf, _ => NInf
  | _, NInf => NInf
  end.

(** [x / d] for a positive number [d]. *)
Definition fdiv (x : pyfloat) (d : Q) : pyfloat :=
  match x with
  | Fin a => Fin (a / d)
  | _ => x
  end.

(** A scalar JSON field as [m.get(...)] returns it: [None] (key absent or
    [null]), a string, or a number. *)
Inductive field : Type :=
| FNone
| FStr (s : string)
| FNum (v : pyfloat).

Arguments FNum v%_Q.

(** A model descriptor of the catalogue, with the fields the script reads:
    [m.get("id")], [m.get("name")],
    [m.get("top_provider", {}).get("context_length")],
    [m.get("context_length")], [m.get("pricing", {}).get("prompt")] and
    [m.get("pricing", {}).get("completion")]. *)
Record model : Type := {
  id : option string;
  name : option string;
  top_provider_context_length : option Z;
  context_length : option Z;
  pricing_prompt : field;
  pricing_completion : field
}.

(** [a or b] on an optional integer: [None] and [0] are falsy. *)
Definition or_int (a : option Z) (b : Z) : Z :=
  match a with
  | Some z => if z =? 0 then b else z
  | None => b
  end.

Definition ctx_of (m : model) : Z :=
  or_int (top_provider_context_length m) (or_int (context_length m) 0).

Definition is_router (mid name : option string) : bool :=
  let s := lower (or_empty mid) ++ " " ++ lower (or_empty name) in
  startswith "openrouter/auto" s || contains " router" s || endswith "/auto" s.

(** The claim's reading of the router test, for comparison with
    [is_router]: the text has the standalone token [t] when [t] is one of its
    space-separated words. *)
Definition has_token (t s : string) : bool := existsb (String.eqb t) (split " " s).

Definition is_router_by_token (mid name : option string) : bool :=
  let s := lower (or_empty mid) ++ " " ++ lower (or_empty name) in
  startswith "openrouter/auto" s || has_token "router" s || endswith "/auto" s.

Definition detect_free (mid name : option string) (p_in p_out : pyfloat) : bool :=
  let s := lower (or_empty mid) ++ " " ++ lower (or_empty name) in
  contains ":free" s || (feq p_in (Fin 0) && feq p_out (Fin 0)).

Definition family (mid : option string) : string :=
  before "/" (or_empty mid).

(** [score].  A rational price is read as the float [Fin] of it. *)
Definition score (p_in p_out : pyfloat) (ctx : Z) : pyfloat :=
  if ctx <=? 0 then Inf
  else
    let ctx_eff := Z.min ctx CTX_CAP in
    let avg := fadd (fmul (Fin W_IN) p_in) (fmul (Fin W_OUT) p_out) in
    let denom := (inject_Z ctx_eff / inject_Z BASE_CTX)%Q in
    if Qltb 0 denom then fdiv avg denom else Inf.

Arguments score (p_in p_out)%_Q ctx%_Z.

(** [round(x, ndigits)]: to the nearest multiple of [10^-ndigits], ties to
    the even one; an infinite value or [nan] is returned as it is. *)
Definition round_half_even (x : Q) : Z :=
  let f := Qfloor x in
  match (x - inject_Z f ?= 1 # 2)%Q with
  | Lt => f
  | Gt => f + 1
  | Eq => if Z.even f then f else f + 1
  end.

Definition round_Q (x : Q) (ndigits : Z) : Q :=
  (inject_Z (round_half_even (x * inject_Z (10 ^ ndigits))) / inject_Z (10 ^ ndigits))%Q.

Definition round (x : pyfloat) (ndigits : Z) : pyfloat :=
  match x with
  | Fin q => Fin (round_Q q ndigits)
  | _ => x
  end.

(** One normalized row (the dict appended to [rows]). *)
Record row : Type := {
  r_id : option string;
  r_name : option string;
  r_family : string;
  r_context : Z;
  r_price_in : pyfloat;
  r_price_out : pyfloat;
  r_score : pyfloat;
  r_free : bool;
  r_streaming : string
}.

Section Normalizer.

(** Python's built-in [float] on a [str]: the float it denotes ("nan",
    "inf" and "-inf" among them), [None] where it raises [ValueError]. *)
Variable float_of_str : string -> option pyfloat.

Definition ffloat (x : field) : option pyfloat :=
  match x with
  | FNone => None
  | FStr s => if String.eqb s "" || String.eqb s "null" then None else float_of_str s
  | FNum v => Some v
  end.

(** [v is None or v < 0] *)
Definition none_or_negative (v : option pyfloat) : bool :=
  match v with
  | None => true
  | Some x => flt x (Fin 0)
  end.

(** The body of the loop over [models]: [None] is [continue]. *)
Definition normalize (m : model) : option row :=
  let mid := id m in
  let nm := name m in
  if is_router mid nm then None
  else
    let ctx := ctx_of m in
    let p_in := ffloat (pricing_prompt m) in
    let p_out := ffloat (pricing_completion m) in
    if existsb none_or_negative [p_in; p_out] || (ctx <=? 0) then None
    else
      match p_in, p_out with
      | Some p_in, Some p_out =>
          Some {| r_id := mid;
                  r_name := nm;
                  r_family := family mid;
                  r_context := ctx;
                  r_price_in := p_in;
                  r_price_out := p_out;
                  r_score := round (score p_in p_out ctx) 12;
                  r_free := detect_free mid nm p_in p_out;
                  r_streaming := "SSE (stream=true)" |}
      | _, _ => None
      end.

Fixpoint rows (models : list model) : list row :=
  match models with
  | [] => []
  | m :: ms =>
      match normalize m with
      | Some r => r :: rows ms
      | None => rows ms
      end
  end.

End Normalizer.

(** *** The data frame and the three rankings

    [df = pd.DataFrame(rows)] is the list of rows in order.  A frame built
    from no rows has no columns, so the first [sort_values] raises
    [KeyError]: see [ranker]. *)

Definition lex (c1 c2 : comparison) : comparison :=
  match c1 with
  | Eq => c2
  | _ => c1
  end.

(** The order a sort puts floats in: the numbers by size between [-inf] and
    [inf], and [nan] after everything else (pandas sorts nulls last). *)
Definition compare_float (x y : pyfloat) : comparison :=
  match x, y with
  | Fin a, Fin b => (a ?= b)%Q
  | NaN, NaN => Eq
  | NaN, _ => Gt
  | _, NaN => Lt
  | Inf, Inf => Eq
  | Inf, _ => Gt
  | _, Inf => Lt
  | NInf, NInf => Eq
  | NInf, _ => Lt
  | _, NInf => Gt
  end.

Definition float_le (x y : pyfloat) : Prop := compare_float x y <> Gt.
Definition float_eq (x y : pyfloat) : Prop := compare_float x y = Eq.

Section Sorting.
Context {A : Type} (cmp : A -> A -> comparison).

Definition leb (a b : A) : bool :=
  match cmp a b with
  | Gt => false
  | _ => true
  end.

Fixpoint insert (x : A) (l : list A) : list A :=
  match l with
  | [] => [x]
  | y :: l' => if leb x y then x :: l else y :: insert x l'
  end.

(** [sort_values]: a stable sort by the given column order (rows that
    compare equal keep their order in the frame). *)
Definition sort_values (df : list A) : list A := fold_right insert [] df.
End Sorting.

(** ["score","price_in","price_out","context"], ascending
    [True,True,True,False]. *)
Definition by_score (a b : row) : comparison :=
  lex (compare_float (r_score a) (r_score b))
    (lex (compare_float (r_price_in a) (r_price_in b))
       (lex (compare_float (r_price_out a) (r_price_out b))
          (CompOpp (r_context a ?= r_context b)))).

(** ["context","price_in","price_out"], ascending [False,True,True]. *)
Definition by_context (a b : row) : comparison :=
  lex (CompOpp (r_context a ?= r_context b))
    (lex (compare_float (r_price_in a) (r_price_in b))
       (compare_float (r_price_out a) (r_price_out b))).

(** ["family","score","price_in","price_out","context"], ascending
    [True,True,True,True,False]. *)
Definition by_family_score (a b : row) : comparison :=
  lex (String.compare (r_family a) (r_family b)) (by_score a b).

(** ["score"] alone. *)
Definition by_score_only (a b : row) : comparison :=
  compare_float (r_score a) (r_score b).

Definition head (n : nat) (df : list row) : list row := firstn n df.

Definition top10 (df : list row) : list row :=
  head 10 (sort_values by_score df).

Definition free5 (df : list row) : list row :=
  head 5 (sort_values by_context (filter r_free df)).

(** The group keys of [groupby("family")]: the distinct families, sorted. *)
Fixpoint insert_key (k : string) (ks : list string) : list string :=
  match ks with
  | [] => [k]
  | k' :: ks' =>
      match String.compare k k' with
      | Lt => k :: ks
      | Eq => ks
      | Gt => k' :: insert_key k ks'
      end
  end.

Definition group_keys (df : list row) : list string :=
  fold_right insert_key [] (map r_family df).

Definition group (k : string) (df : list row) : list row :=
  filter (fun r => String.eqb (r_family r) k) df.

(** The first entry of a column that is not null, null when there is none.
    The null of the text columns [id] and [name] is [None], the null of the
    float columns [price_in], [price_out] and [score] is [nan]; the columns
    [context], [free] and [streaming] hold no null. *)
Fixpoint first_valid {A : Type} (col : list (option A)) : option A :=
  match col with
  | [] => None
  | Some x :: _ => Some x
  | None :: col' => first_valid col'
  end.

Fixpoint first_number (col : list pyfloat) : pyfloat :=
  match col with
  | [] => NaN
  | NaN :: col' => first_number col'
  | x :: _ => x
  end.

(** [GroupBy.first()]: computed column by column, each column giving its
    first non-null entry within the group. *)
Definition first (k : string) (g : list row) : list row :=
  match g with
  | [] => []
  | r :: _ =>
      [{| r_id := first_valid (map r_id g);
          r_name := first_valid (map r_name g);
          r_family := k;
          r_context := r_context r;
          r_price_in := first_number (map r_price_in g);
          r_price_out := first_number (map r_price_out g);
          r_score := first_number (map r_score g);
          r_free := r_free r;
          r_streaming := r_streaming r |}]
  end.

Definition groupby_family_first (df : list row) : list row :=
  flat_map (fun k => first k (group k df)) (group_keys df).

(** The last [sort_values("score")] is on one column, where pandas does not
    promise the order of rows with equal scores; here they stay in key
    order.  Nothing proved below depends on that order. *)
Definition best_per_family (df : list row) : list row :=
  sort_values by_score_only (groupby_family_first (sort_values by_family_score df)).

Definition round10 (x : pyfloat) : pyfloat := round x 10.

(** The presentation pass: both prices rounded to 10 decimals. *)
Definition friendly (d : list row) : list row :=
  map (fun r =>
         {| r_id := r_id r;
            r_name := r_name r;
            r_family := r_family r;
            r_context := r_context r;
            r_price_in := round10 (r_price_in r);
            r_price_out := round10 (r_price_out r);
            r_score := r_score r;
            r_free := r_free r;
            r_streaming := r_streaming r |}) d.

(** The three sheets written to the workbook, [None] when the frame has no
    rows (so no ["score"] column to sort on). *)
Definition ranker (df : list row) : option (list row * list row * list row) :=
  match df with
  | [] => None
  | _ :: _ =>
      Some (friendly (top10 df), friendly (free5 df), friendly (best_per_family df))
  end.

(** *** The words of the exclusion rule

    A price is negative when it is a number below zero or [-inf]; [nan] and
    [inf] are not. *)
Definition negative (x : pyfloat) : Prop :=
  match x with
  | Fin q => (q < 0)%Q
  | NInf => True
  | _ => False
  end.

Section Exclusion.
Variable float_of_str : string -> option pyfloat.




End Exclusion.




(** A row with no null in it. *)
Definition complete (r : row) : Prop :=
  r_id r <> None /\ r_name r <> None
  /\ r_price_in r <> NaN /\ r_price_out r <> NaN /\ r_score r <> NaN.

End OpenRouter.

(** ** npm-scan.py *)

Module NpmScan.
Import PyStr.

(** A document as [json.load] returns it.  An object is the list of its
    members in document order. *)
#[warnings="-register-all"]
Inductive json : Type :=
| JNull
| JBool (b : bool)
| JNum (q : Q)
| JStr (s : string)
| JArr (items : list json)
| JObj (members : list (string * json)).

(** The dict [{"package": name, "version": version}]. *)
Record ioc : Type := {
  package : string;
  version : string
}.

(** *** The pattern [([a-z0-9_-]+)(\d+\.\d+\.\d+)], case-insensitive *)

Definition is_digit (c : ascii) : bool :=
  let n := nat_of_ascii c in ((48 <=? n) && (n <=? 57))%nat.

Definition is_word (c : ascii) : bool :=
  let n := nat_of_ascii (lower_ascii c) in
  ((97 <=? n) && (n <=? 122))%nat || is_digit c || Ascii.eqb c "_" || Ascii.eqb c "-".

(** [\d+], greedy: the longest run of digits and the text after it. *)
Fixpoint digits (s : string) : string * string :=
  match s with
  | EmptyString => (EmptyString, EmptyString)
  | String c s' =>
      if is_digit c then let (d, rest) := digits s' in (String c d, rest)
      else (EmptyString, s)
  end.

(** [\d+\.\d+\.\d+] at the start of [s].  A shorter first or second run
    would be followed by a digit, not by a dot, so backtracking never
    helps: the match, when there is one, takes the longest runs. *)
Definition match_version (s : string) : option string :=
  match digits s with
  | (String _ _ as d1, String "." s1) =>
      match digits s1 with
      | (String _ _ as d2, String "." s2) =>
          match digits s2 with
          | (String _ _ as d3, _) => Some (d1 ++ "." ++ d2 ++ "." ++ d3)
          | _ => None
          end
      | _ => None
      end
  | _ => None
  end.

(** The whole pattern at the start of [s]: the first group is greedy, so
    the longest name after which a version matches is tried first. *)
Fixpoint match_at (s : string) : option (string * string) :=
  match s with
  | EmptyString => None
  | String c s' =>
      if is_word c then
        match match_at s' with
        | Some (name, ver) => Some (String c name, ver)
        | None =>
            match match_version s' with
            | Some ver => Some (String c EmptyString, ver)
            | None => None
            end
        end
      else None
  end.

(** [pattern.findall(text)]: leftmost matches, not overlapping.  [skip]
    counts the characters of the last match still to step over. *)
Fixpoint findall_from (skip : nat) (text : string) : list (string * string) :=
  match text with
  | EmptyString => []
  | String _ text' =>
      match skip with
      | S k => findall_from k text'
      | O =>
          match match_at text with
          | Some (name, ver) =>
              (name, ver) :: findall_from (String.length name + String.length ver - 1) text'
          | None => findall_from 0 text'
          end
      end
  end.

Definition findall (text : string) : list (string * string) := findall_from 0 text.

(** *** Scraping *)

Definition urls : list string :=
  ["https://www.aikido.dev/blog/npm-debug-and-chalk-packages-compromised"].

(** What the [try] block gets for one URL: the visible text of the page, or
    the exception raised by the request, the status check or the parser. *)
Inductive response : Type :=
| Page (text : string)
| Raised (e : string).

(** What the script writes to standard output: a line of text, or the
    [output] document of the structured mode. *)
Record report : Type := {
  scanned_lockfile : string;
  scanned_at_utc : string;
  status : string;
  fetched_from_internet : bool;
  findings : list ioc;
  iocs_source : list ioc;
  remediation_steps : list string
}.

Inductive printed : Type :=
| Line (s : string)
| Json (output : report).

(** The variables the scraping loop leaves behind. *)
Record scraped : Type := {
  iocs : list ioc;
  fetched_online : bool;
  log : list printed
}.

Fixpoint scrape (get : string -> response) (us : list string) (st : scraped) : scraped :=
  match us with
  | [] => st
  | url :: us' =>
      match get url with
      | Page text =>
          let matches := findall text in
          scrape get us'
            {| iocs := iocs st ++ map (fun m => {| package := fst m; version := snd m |}) matches;
               fetched_online := true;
               log := log st |}
      | Raised e =>
          scrape get us'
            {| iocs := iocs st;
               fetched_online := fetched_online st;
               log := log st ++ [Line ("Erro ao acessar " ++ url ++ ": " ++ e)] |}
      end
  end.

(** The variables before the loop: [iocs = []], [fetched_online = False]. *)
Definition start : scraped := {| iocs := []; fetched_online := false; log := [] |}.

(** [d[k] = v] on a dict kept in insertion order: a key already present
    keeps its place and takes the new value. *)
Fixpoint dict_set {V : Type} (k : string) (v : V) (d : list (string * V)) : list (string * V) :=
  match d with
  | [] => [(k, v)]
  | (k', v') :: d' =>
      if String.eqb k' k then (k, v) :: d' else (k', v') :: dict_set k v d'
  end.

Definition unique_iocs (l : list ioc) : list (string * ioc) :=
  fold_left (fun d i => dict_set (package i ++ "@" ++ version i) i d) l [].

Definition iocs_list (l : list ioc) : list ioc := map snd (unique_iocs l).

(** *** Matching *)

(** [d.get(k)]: the value of the member, [None] when there is none. *)
Fixpoint get (k : string) (d : list (string * json)) : json :=
  match d with
  | [] => JNull
  | (k', v) :: d' => if String.eqb k' k then v else get k d'
  end.

(** Truth value of a document, as [if version:] takes it. *)
Definition truthy (v : json) : bool :=
  match v with
  | JNull => false
  | JBool b => b
  | JNum q => negb (Qeq_bool q 0)
  | JStr s => negb (String.eqb s "")
  | JArr items => match items with [] => false | _ :: _ => true end
  | JObj members => match members with [] => false | _ :: _ => true end
  end.

(** [s == v] for a string [s]. *)
Definition eq_str (s : string) (v : json) : bool :=
  match v with
  | JStr s' => String.eqb s s'
  | _ => false
  end.

(** [for k, v in d.items(): st = body(k, v, st)], stopping at an
    exception. *)
Definition for_items {S : Type} (body : string -> json -> S -> option S)
  : list (string * json) -> S -> option S :=
  fix go (d : list (string * json)) (st : S) : option S :=
    match d with
    | [] => Some st
    | (k, v) :: d' =>
        match body k v st with
        | Some st' => go d' st'
        | None => None
        end
    end.

(** [f(d[k]) if k in d], [None] when [k] is not a key of [d]. *)
Definition member {T : Type} (k : string) (f : json -> T)
  : list (string * json) -> option T :=
  fix go (d : list (string * json)) : option T :=
    match d with
    | [] => None
    | (k', v) :: d' => if String.eqb k' k then Some (f v) else go d'
    end.

Section Matcher.

(** The global [iocs_list]. *)
Variable iocs_list : list ioc.

(** The inner loop: [found] after appending every IOC equal to
    [(name, ver)]. *)
Definition check (name : string) (ver : json) (found : list ioc) : list ioc :=
  if truthy ver then
    found ++ filter (fun i => String.eqb (package i) name && eq_str (version i) ver) iocs_list
  else found.

Fixpoint extract_from_v1 (deps : json) (found : list ioc) {struct deps} : option (list ioc) :=
  match deps with
  | JObj d =>
      for_items
        (fun name info found =>
           match info with
           | JObj fields =>
               let found := check name (get "version" fields) found in
               match member "dependencies" (fun sub => extract_from_v1 sub found) fields with
               | Some result => result
               | None => Some found
               end
           | _ => None
           end) d found
  | _ => None
  end.

Definition extract_from_v2 (packages_dict : json) (found : list ioc) : option (list ioc) :=
  match packages_dict with
  | JObj d =>
      for_items
        (fun path info found =>
           if startswith "node_modules/" path then
             let name := nth 1 (split "/" path) "" in
             match info with
             | JObj fields => Some (check name (get "version" fields) found)
             | _ => None
             end
           else Some found) d found
  | _ => None
  end.

(** The schema dispatch; [found] starts empty.  On a list or a string
    [in] is a membership or substring test and the subscript that follows
    a hit raises [TypeError]; on the other documents [in] itself does. *)
Definition scan (lock_data : json) : option (list ioc) :=
  match lock_data with
  | JObj d =>
      match member "packages" (fun p => extract_from_v2 p []) d with
      | Some result => result
      | None =>
          match member "dependencies" (fun deps => extract_from_v1 deps []) d with
          | Some result => result
          | None => Some []
          end
      end
  | JArr items =>
      if existsb (eq_str "packages") items then None
      else if existsb (eq_str "dependencies") items then None
      else Some []
  | JStr s =>
      if contains "packages" s then None
      else if contains "dependencies" s then None
      else Some []
  | _ => None
  end.

End Matcher.

(** [k in d] and [d[k]] on the members of an object. *)
Definition has_key (k : string) (d : list (string * json)) : bool :=
  existsb (fun kv => String.eqb (fst kv) k) d.

Definition item (k : string) (d : list (string * json)) : option json :=
  member k (fun v => v) d.

(** *** The shape of a lockfile

    A schema-v1 dependency map is an object whose entries are objects, the
    ["dependencies"] member of an entry, when it has one, being again such a
    map.  On any other shape the walk raises. *)

Fixpoint wf_v1 (deps : json) : bool :=
  match deps with
  | JObj d =>
      forallb
        (fun '(_, info) =>
           match info with
           | JObj fields =>
               match member "dependencies" wf_v1 fields with
               | Some ok => ok
               | None => true
               end
           | _ => false
           end) d
  | _ => false
  end.

(** A schema-v2 package map: an object whose entries under
    ["node_modules/"] are objects. *)
Definition wf_v2 (packages_dict : json) : bool :=
  match packages_dict with
  | JObj d =>
      forallb
        (fun '(path, info) =>
           if startswith "node_modules/" path then
             match info with
             | JObj _ => true
             | _ => false
             end
           else true) d
  | _ => false
  end.

(** A lockfile document: an object; its ["packages"] member, or else its
    ["dependencies"] member, of the shape above. *)
Definition wf_lock (lock_data : json) : bool :=
  match lock_data with
  | JObj d =>
      match member "packages" wf_v2 d with
      | Some ok => ok
      | None =>
          match member "dependencies" wf_v1 d with
          | Some ok => ok
          | None => true
          end
      end
  | _ => false
  end.

(** [entry_in deps name info]: the dependency map [deps] holds the entry
    [name: info], at the top or at any depth below the ["dependencies"] of
    another entry. *)
Inductive entry_in : json -> string -> json -> Prop :=
| entry_here (d : list (string * json)) (name : string) (info : json) :
    In (name, info) d -> entry_in (JObj d) name info
| entry_below (d : list (string * json)) (parent : string) (fields : list (string * json))
    (sub : json) (name : string) (info : json) :
    In (parent, JObj fields) d ->
    member "dependencies" (fun v => v) fields = Some sub ->
    entry_in sub name info ->
    entry_in (JObj d) name info.

(** *** The script *)

(** What the run reads from outside: the arguments after the script name,
    the result of the [try] block per URL, the file system and the clock. *)
Record world : Type := {
  argv : list string;
  fetch : string -> response;
  isfile : string -> bool;
  realpath : string -> string;
  (** [open] and [json.load] on a path; [None] when either raises. *)
  load : string -> option json;
  utcnow : string
}.

Fixpoint parse_args (args : list string) (lockfile_path : string) (output_json : bool)
  : string * bool :=
  match args with
  | [] => (lockfile_path, output_json)
  | arg :: args' =>
      if String.eqb arg "--json" then parse_args args' lockfile_path true
      else parse_args args' arg output_json
  end.

(** How the process ends: [sys.exit] or the end of the script, or an
    uncaught exception, after which the interpreter exits with status 1. *)
Inductive outcome : Type :=
| Exit (code : Z) (stdout : list printed)
| Traceback (stdout : list printed).

Definition exit_status (o : outcome) : Z :=
  match o with
  | Exit code _ => code
  | Traceback _ => 1
  end.

Definition stdout_of (o : outcome) : list printed :=
  match o with
  | Exit _ out => out
  | Traceback out => out
  end.

Definition status_of (found : list ioc) : string :=
  match found with
  | [] => "clean"
  | _ :: _ => "compromised"
  end.

Definition steps : list string :=
  ["Remova/downgrade versões comprometidas e reinstale (npm ci).";
   "Pine versões seguras e exija PRs revisados para upgrades.";
   "Revogue tokens/credenciais (npm/CI) e habilite 2FA/SSO.";
   "Recrie builds e limpe caches (CI/CD, CDN)."].

Definition nl : string := String (ascii_of_nat 10) EmptyString.

Definition mitigation : string :=
  nl ++ nl ++ "Mitigação (resumo):" ++ nl
  ++ "  1) Fixe/downgrade para versões limpas; rode `npm ci` a partir de lockfile confiável." ++ nl
  ++ "  2) Revogue tokens npm/CI; habilite 2FA/SSO." ++ nl
  ++ "  3) Recrie builds e limpe caches (CI/CD, CDN)." ++ nl.

(** The output section, in either mode. *)
Definition render (w : world) (lockfile_path : string) (output_json : bool)
  (fetched_online : bool) (iocs_list found : list ioc) : list printed :=
  let status := status_of found in
  if output_json then
    [Json {| scanned_lockfile := realpath w lockfile_path;
             scanned_at_utc := utcnow w;
             status := status;
             fetched_from_internet := fetched_online;
             findings := found;
             iocs_source := iocs_list;
             remediation_steps := steps |}]
  else
    [Line ("Arquivo: " ++ realpath w lockfile_path);
     Line ("Coleta online de IOCs: " ++ (if fetched_online then "OK" else "FALLBACK"))]
    ++ (if String.eqb status "clean" then [Line "✅ Nenhum match com IOCs."]
        else
          [Line "🚨 Encontrado(s) pacote(s) comprometido(s):"]
          ++ map (fun i => Line ("  - " ++ package i ++ "@" ++ version i)) found
          ++ [Line mitigation]).

Definition main (w : world) : outcome :=
  let (lockfile_path, output_json) := parse_args (argv w) "./package-lock.json" false in
  let s := scrape (fetch w) urls start in
  let iocs_list := iocs_list (iocs s) in
  if negb (isfile w lockfile_path) then
    Exit 2 (log s ++ [Line ("Arquivo '" ++ lockfile_path ++ "' não encontrado.")])
  else
    match load w lockfile_path with
    | None => Traceback (log s)
    | Some lock_data =>
        match scan iocs_list lock_data with
        | None => Traceback (log s)
        | Some found =>
            Exit 0 (log s ++ render w lockfile_path output_json (fetched_online s) iocs_list found)
        end
    end.

End NpmScan.

(** ** Sample inputs *)

Module Samples.
Import OpenRouter NpmScan.

(** [float] on the price strings of the samples. *)
Definition sample_float (s : string) : option pyfloat :=
  if String.eqb s "0.000001" then Some (Fin (1 # 1000000))
  else if String.eqb s "0.000002" then Some (Fin (2 # 1000000))
  else if String.eqb s "0" then Some (Fin 0)
  else if String.eqb s "-1" then Some (Fin (-1))
  else if String.eqb s "nan" then Some NaN
  else if String.eqb s "inf" then Some Inf
  else None.

Definition model_of (mid : string) (nm : option string) (ctx : Z) (price : string) : model :=
  {| id := Some mid;
     name := nm;
     top_provider_context_length := None;
     context_length := Some ctx;
     pricing_prompt := FStr price;
     pricing_completion := FStr price |}.

(** A catalogue with one record that has no context length. *)
Definition catalogue : list model :=
  [model_of "acme/a" (Some "Acme A") 0 "0.000001";
   model_of "acme/b" (Some "Acme B") 8000 "0.000002";
   model_of "other/c" (Some "Other C") 16000 "0"].



(** A family whose first record is priced "nan". *)
Definition with_nan : list model :=
  [model_of "acme/n" None 4096 "nan";
   model_of "acme/b" (Some "Acme B") 8000 "0.000002"].

(** Two models of one family; the cheaper one has no ["name"]. *)
Definition nameless_best : list model :=
  [model_of "acme/a" None 8000 "0.000001";
   model_of "acme/b" (Some "Acme B") 8000 "0.000002"].

(** The IOCs of the samples, as the advisory text glues them. *)
Definition advisory : string := "Affected: chalk5.6.1 and debug4.4.2 (chalk5.6.1 again)".

Definition chalk : ioc := {| package := "chalk"; version := "5.6.1" |}.
Definition debug : ioc := {| package := "debug"; version := "4.4.2" |}.

(** A schema-v1 dependency map three levels deep; only the deepest entry is
    an IOC. *)
Definition deep_deps : json :=
  JObj [("a", JObj [("version", JStr "1.0.0");
                    ("dependencies",
                      JObj [("b", JObj [("version", JStr "2.0.0");
                                        ("dependencies",
                                          JObj [("chalk", JObj [("version", JStr "5.6.1")])])])])])].

Definition lock_v1 : json := JObj [("lockfileVersion", JNum 1); ("dependencies", deep_deps)].

Definition lock_v2 : json :=
  JObj [("lockfileVersion", JNum 3);
        ("packages",
          JObj [("", JObj [("name", JStr "app")]);
                ("node_modules/chalk", JObj [("version", JStr "5.6.1")]);
                ("node_modules/ms", JObj [("version", JStr "2.1.3")])])].

Definition lock_other : json := JObj [("name", JStr "app"); ("lockfileVersion", JNum 1)].

(** Worlds: the advisory page loads or not, the lockfile is there or not. *)
Definition world_of (args : list string) (page : response) (lock : option json) : world :=
  {| argv := args;
     fetch := fun _ => page;
     isfile := fun _ => match lock with Some _ => true | None => false end;
     realpath := fun p => "/repo/" ++ p;
     load := fun _ => lock;
     utcnow := "2025-09-09T12:00:00Z" |}.

Definition online_v1 : world := world_of ["--json"; "lock.json"] (Page advisory) (Some lock_v1).
Definition online_v2 : world := world_of ["lock.json"] (Page advisory) (Some lock_v2).
Definition offline_v2 : world := world_of ["--json"] (Raised "timeout") (Some lock_v2).
Definition no_lockfile : world := world_of ["missing.json"] (Page advisory) None.

(** The documents the structured mode prints in two of these worlds. *)
Definition online_v1_report : report :=
  {| scanned_lockfile := "/repo/lock.json";
     scanned_at_utc := "2025-09-09T12:00:00Z";
     status := "compromised";
     fetched_from_internet := true;
     findings := [chalk];
     iocs_source := [chalk; debug];
     remediation_steps := steps |}.

Definition offline_v2_report : report :=
  {| scanned_lockfile := "/repo/./package-lock.json";
     scanned_at_utc := "2025-09-09T12:00:00Z";
     status := "clean";
     fetched_from_internet := false;
     findings := [];
     iocs_source := [];
     remediation_steps := steps |}.

End Samples.

(** * Facts about the string methods *)

Module PyStrFacts.
Import PyStr.

Lemma startswith_app (p s : string) :
  startswith p s = true <-> exists r, s = p ++ r.
Proof.
  revert s. induction p as [| a p IH]; intros s; cbn.
  - split; [intros _; exists s; reflexivity | reflexivity].
  - destruct s as [| b s]; cbn.
    + split; [discriminate | intros [r Hr]; discriminate].
    + rewrite andb_true_iff, Ascii.eqb_eq, IH. split.
      * intros [-> [r ->]]. exists r. reflexivity.
      * intros [r Hr]. injection Hr as -> ->. split; [reflexivity | exists r; reflexivity].
Qed.

Lemma contains_app (p s : string) :
  contains p s = true <-> exists l r, s = l ++ p ++ r.
Proof.
  induction s as [| c s IH]; cbn [contains]; rewrite orb_true_iff, startswith_app.
  - split.
    + intros [[r Hr] | H]; [| discriminate]. exists EmptyString, r. exact Hr.
    + intros (l & r & H). left. destruct l; [exists r; exact H | discriminate].
  - rewrite IH. split.
    + intros [[r Hr] | (l & r & ->)].
      * exists EmptyString, r. exact Hr.
      * exists (String c l), r. reflexivity.
    + intros (l & r & H). destruct l as [| c' l]; cbn in H.
      * left. exists r. exact H.
      * right. injection H as _ ->. exists l, r. reflexivity.
Qed.

Lemma endswith_app (p s : string) :
  endswith p s = true <-> exists l, s = l ++ p.
Proof.
  induction s as [| c s IH]; cbn [endswith]; rewrite orb_true_iff, String.eqb_eq.
  - split.
    + intros [<- | H]; [| discriminate]. exists EmptyString. reflexivity.
    + intros [l H]. left. destruct l; [exact H | discriminate].
  - rewrite IH. split.
    + intros [<- | [l ->]].
      * exists EmptyString. reflexivity.
      * exists (String c l). reflexivity.
    + intros [l H]. destruct l as [| c' l]; cbn in H.
      * left. exact H.
      * right. injection H as _ ->. exists l. reflexivity.
Qed.

End PyStrFacts.

(** * Verification of openrouter.py *)

Module OpenRouterSpec.
Import PyStr OpenRouter.

(** ** The score *)


Lemma Qltb_lt (x y : Q) : Qltb x y = true <-> (x < y)%Q.
Proof.
  unfold Qltb. rewrite negb_true_iff, <- not_true_iff_false, Qle_bool_iff.
  split; [apply Qnot_le_lt | apply Qlt_not_le].
Qed.

Lemma inject_Z_lt (a b : Z) : a < b -> (inject_Z a < inject_Z b)%Q.
Proof. rewrite <- Zlt_Qlt. exact (fun H => H). Qed.

Lemma inject_Z_le (a b : Z) : a <= b -> (inject_Z a <= inject_Z b)%Q.
Proof. rewrite <- Zle_Qle. exact (fun H => H). Qed.

Lemma denom_pos (c : Z) : 0 < c -> (0 < inject_Z c / inject_Z BASE_CTX)%Q.
Proof.
  intros Hc. apply Qlt_shift_div_l.
  - reflexivity.
  - rewrite Qmult_0_l. apply (inject_Z_lt 0 c). exact Hc.
Qed.

(** With a positive context the guard on [denom] never fires. *)
Lemma score_pos (p_in p_out : Q) (ctx : Z) :
  0 < ctx ->
  score p_in p_out ctx
  = Fin ((W_IN * p_in + W_OUT * p_out) / (inject_Z (Z.min ctx CTX_CAP) / inject_Z BASE_CTX)).
Proof.
  intros Hctx. unfold score.
  destruct (Z.leb_spec ctx 0) as [Hle | _]; [lia |].
  assert (Hd : Qltb 0 (inject_Z (Z.min ctx CTX_CAP) / inject_Z BASE_CTX) = true).
  { apply Qltb_lt, denom_pos. unfold CTX_CAP. lia. }
  cbv zeta. rewrite Hd. reflexivity.
Qed.

Lemma avg_nonneg (p_in p_out : Q) :
  (0 <= p_in)%Q -> (0 <= p_out)%Q -> (0 <= W_IN * p_in + W_OUT * p_out)%Q.
Proof. unfold W_IN, W_OUT. intros. lra. Qed.






(** C5. With a positive context the score is
    [(0.5·price_in + 0.5·price_out) / (min(ctx, 524288) / 8000)]; with a
    context of zero or less it is infinite. *)
Theorem score_contract (p_in p_out : Q) (ctx : Z) :
  (0 < ctx ->
   score p_in p_out ctx
   = Fin ((0.5 * p_in + 0.5 * p_out) / (inject_Z (Z.min ctx 524288) / 8000)))
  /\ (ctx <= 0 -> score p_in p_out ctx = Inf).
Proof.
  split.
  - intros Hctx. rewrite score_pos by exact Hctx. reflexivity.
  - intros Hctx. unfold score.
    destruct (Z.leb_spec ctx 0) as [_ | Hlt]; [reflexivity | lia].
Qed.

Lemma score_contract_witness :
  score 3 1 16000 = Fin ((0.5 * 3 + 0.5 * 1) / (inject_Z (Z.min 16000 524288) / 8000))
  /\ score 3 1 0 = Inf.
Proof.
  split.
  - apply (proj1 (score_contract 3 1 16000)). lia.
  - apply (proj2 (score_contract 3 1 0)). lia.
Defined.



(** ** The router test *)

(** C6, as stated, fails in both directions: a name that merely begins with
    "router" is excluded though "router" is no standalone token of it, and an
    id that is the bare token "router" is kept. *)
Lemma is_router_is_not_a_token_test :
  (is_router (Some "acme/x") (Some "Routerly") = true
   /\ is_router_by_token (Some "acme/x") (Some "Routerly") = false)
  /\ (is_router (Some "router") None = false
      /\ is_router_by_token (Some "router") None = true).
Proof. repeat split. Qed.

(** C6, amended.  With [s] the lowercased id, a space and the lowercased
    name, a record is taken for a router exactly when [s] starts with
    "openrouter/auto", contains the text " router" (a space followed by
    "router"), or ends with "/auto"; and such a record yields no row. *)
Theorem is_router_spec (mid nm : option string) :
  let s := lower (or_empty mid) ++ " " ++ lower (or_empty nm) in
  (is_router mid nm = true <->
   (exists r, s = "openrouter/auto" ++ r)
   \/ (exists l r, s = l ++ " router" ++ r)
   \/ (exists l, s = l ++ "/auto"))
  /\ (forall float_of_str m,
        id m = mid -> name m = nm -> is_router mid nm = true ->
        normalize float_of_str m = None).
Proof.
  intros s. split.
  - unfold is_router. fold s.
    rewrite !orb_true_iff, PyStrFacts.startswith_app, PyStrFacts.contains_app,
      PyStrFacts.endswith_app.
    tauto.
  - intros f m <- <- H. unfold normalize. rewrite H. reflexivity.
Qed.

Lemma is_router_spec_witness :
  is_router (Some "x/y") (Some "My Router v2") = true
  /\ normalize (fun _ => None)
       {| id := Some "x/y"; name := Some "My Router v2";
          top_provider_context_length := None; context_length := Some 4096;
          pricing_prompt := FNum 1; pricing_completion := FNum 1 |} = None.
Proof.
  pose proof (is_router_spec (Some "x/y") (Some "My Router v2")) as [Hiff Hrow].
  assert (H : is_router (Some "x/y") (Some "My Router v2") = true).
  { apply Hiff. right. left. exists "x/y my", " v2". reflexivity. }
  split; [exact H |].
  apply Hrow; [reflexivity | reflexivity | exact H].
Defined.
(** ** The data frame operations keep to the rows they are given *)

Section SortFacts.
Context {A : Type} (cmp : A -> A -> comparison).

Lemma insert_perm (x : A) (l : list A) : Permutation (insert cmp x l) (x :: l).
Proof.
  induction l as [| y l IH]; cbn.
  - reflexivity.
  - destruct (leb cmp x y).
    + reflexivity.
    + rewrite IH. apply perm_swap.
Qed.

Lemma sort_values_perm (l : list A) : Permutation (sort_values cmp l) l.
Proof.
  induction l as [| x l IH]; cbn.
  - reflexivity.
  - rewrite insert_perm. apply perm_skip. exact IH.
Qed.

Lemma sort_values_In (l : list A) (x : A) : In x (sort_values cmp l) <-> In x l.
Proof.
  split; apply Permutation_in; [| symmetry]; apply sort_values_perm.
Qed.

End SortFacts.










Lemma round_half_even_nonneg (x : Q) : (0 <= x)%Q -> 0 <= round_half_even x.
Proof.
  intros Hx. unfold round_half_even.
  assert (Hf : 0 <= Qfloor x).
  { change 0 with (Qfloor 0). apply Qfloor_resp_le. exact Hx. }
  destruct (x - inject_Z (Qfloor x) ?= 1 # 2)%Q; [destruct (Z.even _) | |]; lia.
Qed.

Lemma round_Q_nonneg (x : Q) (n : Z) : (0 <= x)%Q -> (0 <= round_Q x n)%Q.
Proof.
  intros Hx. unfold round_Q.
  assert (Hp : (0 <= inject_Z (10 ^ n))%Q).
  { apply (inject_Z_le 0). apply Z.pow_nonneg. lia. }
  apply Qmult_le_0_compat.
  - apply (inject_Z_le 0). apply round_half_even_nonneg.
    apply Qmult_le_0_compat; assumption.
  - apply Qinv_le_0_compat. exact Hp.
Qed.

(** Rounding makes no price negative. *)
Lemma round_not_negative (x : pyfloat) (n : Z) : ~ negative x -> ~ negative (round x n).
Proof.
  destruct x as [q | | |]; cbn; try tauto.
  intros Hq Hr. apply Qnot_lt_le in Hq.
  apply (Qlt_not_le _ _ Hr). apply round_Q_nonneg. exact Hq.
Qed.

(** ** The normalized row set *)

Lemma flt_zero_negative (x : pyfloat) : flt x (Fin 0) = true <-> negative x.
Proof.
  destruct x as [q | | |]; cbn; try (split; [discriminate | tauto]).
  - apply Qltb_lt.
  - split; [intros _; exact I | reflexivity].
Qed.


Section Normalized.
Variable float_of_str : string -> option pyfloat.




(** What a row says about the record it was built from. *)
Lemma normalize_Some (m : model) (r : row) :
  normalize float_of_str m = Some r ->
  is_router (id m) (name m) = false
  /\ 0 < ctx_of m
  /\ r_context r = ctx_of m
  /\ ffloat float_of_str (pricing_prompt m) = Some (r_price_in r)
  /\ ffloat float_of_str (pricing_completion m) = Some (r_price_out r)
  /\ ~ negative (r_price_in r)
  /\ ~ negative (r_price_out r)
  /\ r_id r = id m /\ r_name r = name m /\ r_family r = family (id m)
  /\ r_score r = round (score (r_price_in r) (r_price_out r) (ctx_of m)) 12
  /\ r_free r = detect_free (id m) (name m) (r_price_in r) (r_price_out r).
Proof.
  unfold normalize.
  destruct (is_router (id m) (name m)); [discriminate |].
  destruct (ffloat float_of_str (pricing_prompt m)) as [p_in |] eqn:Hin;
    [| cbn; discriminate].
  destruct (ffloat float_of_str (pricing_completion m)) as [p_out |] eqn:Hout;
    [| cbn; rewrite orb_true_r; discriminate].
  cbn [existsb none_or_negative].
  destruct (flt p_in (Fin 0)) eqn:Hi; [discriminate |].
  destruct (flt p_out (Fin 0)) eqn:Ho; [discriminate |].
  destruct (Z.leb_spec (ctx_of m) 0) as [Hc | Hc]; [discriminate |].
  cbn. intros [= <-]. cbn.
  apply not_true_iff_false in Hi, Ho. rewrite flt_zero_negative in Hi, Ho.
  repeat split; try reflexivity; assumption.
Qed.

Lemma rows_In (models : list model) (r : row) :
  In r (rows float_of_str models)
  <-> exists m, In m models /\ normalize float_of_str m = Some r.
Proof.
  induction models as [| m ms IH]; cbn.
  - split; [intros [] | intros (m & [] & _)].
  - destruct (normalize float_of_str m) as [r' |] eqn:Hm; cbn; rewrite IH; split.
    + intros [<- | (m' & H & Hr)].
      * exists m. split; [left; reflexivity | exact Hm].
      * exists m'. split; [right; exact H | exact Hr].
    + intros (m' & [<- | H] & Hr).
      * left. congruence.
      * right. exists m'. split; assumption.
    + intros (m' & H & Hr). exists m'. split; [right; exact H | exact Hr].
    + intros (m' & [<- | H] & Hr); [congruence |].
      exists m'. split; assumption.
Qed.



End Normalized.


(** ** The column orders

    A three-way comparison is a weak order when swapping its arguments flips
    the answer and "not greater" composes: the comparison of the ends is then
    the lexicographic combination of the two steps. *)

Record weak_order {A : Type} (cmp : A -> A -> comparison) : Prop := {
  cmp_antisym : forall a b, cmp b a = CompOpp (cmp a b);
  cmp_trans : forall a b c,
    cmp a b <> Gt -> cmp b c <> Gt -> cmp a c = lex (cmp a b) (cmp b c)
}.

Lemma weak_order_lex {A : Type} (c1 c2 : A -> A -> comparison) :
  weak_order c1 -> weak_order c2 -> weak_order (fun a b => lex (c1 a b) (c2 a b)).
Proof.
  intros [A1 T1] [A2 T2]. split.
  - intros a b. rewrite A1, A2. destruct (c1 a b); reflexivity.
  - intros a b c H1 H2.
    pose proof (T1 a b c) as T1'. pose proof (T2 a b c) as T2'.
    destruct (c1 a b), (c1 b c); cbn in *;
      try (rewrite T1' by discriminate; cbn);
      try reflexivity; try contradiction.
    + apply T2'; assumption.
    + destruct (c2 a b); try reflexivity. contradiction.
Qed.

Lemma weak_order_opp {A : Type} (c : A -> A -> comparison) :
  weak_order c -> weak_order (fun a b => CompOpp (c a b)).
Proof.
  intros [HA HT]. split.
  - intros a b. rewrite HA. reflexivity.
  - intros a b d H1 H2.
    pose proof (HT d b a) as HT'.
    rewrite (HA a d), (HA b d), (HA a b) in HT'.
    destruct (c a b), (c b d); cbn in *; try contradiction;
      destruct (c a d); cbn in *; try reflexivity;
      (discriminate HT'; discriminate).
Qed.

Lemma weak_order_on {A B : Type} (f : A -> B) (c : B -> B -> comparison) :
  weak_order c -> weak_order (fun a b => c (f a) (f b)).
Proof.
  intros [HA HT]. split; intros; [apply HA | apply HT; assumption].
Qed.

Lemma weak_order_Z : weak_order Z.compare.
Proof.
  split.
  - intros a b. apply Z.compare_antisym.
  - intros a b c H1 H2.
    destruct (Z.compare_spec a b), (Z.compare_spec b c); try congruence; cbn;
      first [apply Z.compare_eq_iff | apply Z.compare_lt_iff]; lia.
Qed.

Lemma weak_order_Q : weak_order Qcompare.
Proof.
  split.
  - intros a b. symmetry. apply Qcompare_antisym.
  - intros a b c H1 H2.
    destruct (Qcompare_spec a b) as [Hab | Hab | Hab],
             (Qcompare_spec b c) as [Hbc | Hbc | Hbc]; try congruence; cbn;
      match goal with
      | |- _ = Eq => apply (proj1 (Qeq_alt _ _))
      | |- _ = Lt => apply (proj1 (Qlt_alt _ _))
      end; lra.
Qed.

Lemma weak_order_float : weak_order compare_float.
Proof.
  destruct weak_order_Q as [HA HT]. split.
  - intros [a | | |] [b | | |]; cbn; try reflexivity. apply HA.
  - intros [a | | |] [b | | |] [c | | |]; cbn; intros H1 H2;
      try reflexivity; try congruence.
    + apply HT; assumption.
    + destruct (a ?= b)%Q; try reflexivity. congruence.
    + destruct (a ?= b)%Q; try reflexivity. congruence.
Qed.

Lemma weak_order_string : weak_order String.compare.
Proof.
  assert (Hrefl : forall a, String.compare a a = Eq).
  { intros a. pose proof (String.compare_antisym a a) as H.
    destruct (String.compare a a); try reflexivity; discriminate. }
  split.
  - intros a b. apply String.compare_antisym.
  - intros a b c H1 H2.
    destruct (String.compare a b) eqn:Hab; try contradiction; cbn.
    + apply String.compare_eq_iff in Hab. subst b. reflexivity.
    + destruct (String.compare b c) eqn:Hbc; try contradiction; cbn.
      * apply String.compare_eq_iff in Hbc. subst c. exact Hab.
      * apply String_as_OT.cmp_lt. apply String_as_OT.cmp_lt in Hab, Hbc.
        exact (String_as_OT.lt_trans _ _ _ Hab Hbc).
Qed.

Lemma weak_order_by_score : weak_order by_score.
Proof.
  unfold by_score.
  apply (weak_order_lex (fun a b => compare_float (r_score a) (r_score b))).
  { apply (weak_order_on r_score), weak_order_float. }
  apply (weak_order_lex (fun a b => compare_float (r_price_in a) (r_price_in b))).
  { apply (weak_order_on r_price_in), weak_order_float. }
  apply (weak_order_lex (fun a b => compare_float (r_price_out a) (r_price_out b))).
  { apply (weak_order_on r_price_out), weak_order_float. }
  apply (weak_order_opp (fun a b => r_context a ?= r_context b)).
  apply (weak_order_on r_context), weak_order_Z.
Qed.

Lemma weak_order_by_family_score : weak_order by_family_score.
Proof.
  unfold by_family_score.
  apply (weak_order_lex (fun a b => String.compare (r_family a) (r_family b))).
  - apply (weak_order_on r_family), weak_order_string.
  - apply weak_order_by_score.
Qed.

Lemma weak_order_by_score_only : weak_order by_score_only.
Proof. apply (weak_order_on r_score), weak_order_float. Qed.

(** ** Sorting by a weak order *)

Section SortedFacts.
Context {A : Type} (cmp : A -> A -> comparison) (Hcmp : weak_order cmp).

Definition le_by (a b : A) : Prop := leb cmp a b = true.

Lemma leb_total (a b : A) : leb cmp a b = false -> leb cmp b a = true.
Proof.
  unfold leb. rewrite (cmp_antisym cmp Hcmp a b).
  destruct (cmp a b); cbn; congruence.
Qed.

Lemma le_by_trans (a b c : A) : le_by a b -> le_by b c -> le_by a c.
Proof.
  unfold le_by, leb. intros Hab Hbc.
  rewrite (cmp_trans cmp Hcmp a b c).
  - destruct (cmp a b), (cmp b c); cbn in *; congruence.
  - destruct (cmp a b); congruence.
  - destruct (cmp b c); congruence.
Qed.

Lemma insert_sorted (x : A) (l : list A) :
  StronglySorted le_by l -> StronglySorted le_by (insert cmp x l).
Proof.
  induction 1 as [| y l Hl IH Hy]; cbn.
  - repeat constructor.
  - destruct (leb cmp x y) eqn:Hxy.
    + constructor; [constructor; assumption |].
      constructor; [exact Hxy |].
      apply Forall_forall. intros z Hz. rewrite Forall_forall in Hy.
      apply (le_by_trans x y z Hxy (Hy z Hz)).
    + constructor; [exact IH |].
      apply Forall_forall. intros z Hz.
      apply (Permutation_in _ (insert_perm cmp x l)) in Hz.
      destruct Hz as [<- | Hz].
      * apply leb_total. exact Hxy.
      * rewrite Forall_forall in Hy. apply Hy. exact Hz.
Qed.

(** [sort_values] sorts. *)
Lemma sort_values_sorted (l : list A) : StronglySorted le_by (sort_values cmp l).
Proof.
  induction l as [| x l IH]; cbn; [constructor | apply insert_sorted; exact IH].
Qed.

(** Selecting rows commutes with sorting: a selection of the sorted frame is
    the sorted selection, ties included, whenever the two orders agree on the
    selected rows. *)
Lemma filter_insert (cmp' : A -> A -> comparison) (p : A -> bool) (x : A) (l : list A) :
  (forall a b, p a = true -> p b = true -> cmp a b = cmp' a b) ->
  StronglySorted le_by l ->
  filter p (insert cmp x l)
  = if p x then insert cmp' x (filter p l) else filter p l.
Proof.
  intros Hagree. induction 1 as [| y l Hl IH Hy]; cbn.
  - destruct (p x); reflexivity.
  - destruct (leb cmp x y) eqn:Hxy; cbn.
    + destruct (p x) eqn:Hpx; [| reflexivity].
      destruct (filter p (y :: l)) as [| z fl] eqn:Hf; cbn in Hf |- *; rewrite Hf;
        [reflexivity |].
      assert (Hz : In z (y :: l) /\ p z = true).
      { apply filter_In. cbn. rewrite Hf. left. reflexivity. }
      destruct Hz as [Hz Hpz].
      assert (Hxz : le_by x z).
      { destruct Hz as [<- | Hz]; [exact Hxy |].
        rewrite Forall_forall in Hy. apply (le_by_trans x y z Hxy (Hy z Hz)). }
      cbn. unfold le_by, leb in Hxz. unfold leb.
      rewrite <- (Hagree x z Hpx Hpz).
      destruct (cmp x z); try reflexivity. discriminate.
    + rewrite IH. destruct (p y) eqn:Hpy, (p x) eqn:Hpx; try reflexivity.
      cbn. unfold leb in Hxy |- *. rewrite <- (Hagree x y Hpx Hpy).
      destruct (cmp x y); try reflexivity; discriminate.
Qed.

Lemma filter_sort_values (cmp' : A -> A -> comparison) (p : A -> bool) (l : list A) :
  (forall a b, p a = true -> p b = true -> cmp a b = cmp' a b) ->
  filter p (sort_values cmp l) = sort_values cmp' (filter p l).
Proof.
  intros Hagree. induction l as [| x l IH]; [reflexivity |].
  change (sort_values cmp (x :: l)) with (insert cmp x (sort_values cmp l)).
  rewrite (filter_insert cmp' p x _ Hagree (sort_values_sorted l)), IH.
  cbn [filter]. destruct (p x); reflexivity.
Qed.

(** The head of a sorted frame is a least row. *)
Lemma sort_values_head (l : list A) (x : A) (rest : list A) :
  sort_values cmp l = x :: rest -> forall y, In y l -> le_by x y.
Proof.
  intros Hs y Hy.
  pose proof (sort_values_sorted l) as Hsorted. rewrite Hs in Hsorted.
  apply (sort_values_In cmp) in Hy. rewrite Hs in Hy.
  inversion Hsorted as [| ? ? _ Hall]; subst.
  destruct Hy as [<- | Hy].
  - unfold le_by, leb.
    pose proof (cmp_antisym cmp Hcmp x x) as H. destruct (cmp x x); try reflexivity.
    discriminate.
  - rewrite Forall_forall in Hall. apply Hall. exact Hy.
Qed.

End SortedFacts.
(** ** Grouping by family *)

Definition string_lt (a b : string) : Prop := String.compare a b = Lt.

Lemma string_compare_refl (a : string) : String.compare a a = Eq.
Proof.
  pose proof (String.compare_antisym a a) as H.
  destruct (String.compare a a); try reflexivity; discriminate.
Qed.

Lemma insert_key_In (k x : string) (ks : list string) :
  In x (insert_key k ks) <-> x = k \/ In x ks.
Proof.
  induction ks as [| k' ks IH]; cbn.
  - intuition congruence.
  - destruct (String.compare k k') eqn:Hk; cbn.
    + apply String.compare_eq_iff in Hk. subst k'. intuition congruence.
    + intuition congruence.
    + rewrite IH. intuition congruence.
Qed.

Lemma insert_key_sorted (k : string) (ks : list string) :
  StronglySorted string_lt ks -> StronglySorted string_lt (insert_key k ks).
Proof.
  induction 1 as [| k' ks Hks IH Hk']; cbn.
  - repeat constructor.
  - destruct (String.compare k k') eqn:Hk.
    + constructor; assumption.
    + constructor; [constructor; assumption |].
      constructor; [exact Hk |].
      apply Forall_forall. intros z Hz. rewrite Forall_forall in Hk'.
      apply String_as_OT.cmp_lt.
      apply (String_as_OT.lt_trans k k' z); apply String_as_OT.cmp_lt;
        [exact Hk | apply Hk'; exact Hz].
    + constructor; [exact IH |].
      apply Forall_forall. intros z Hz. apply insert_key_In in Hz as [-> | Hz].
      * unfold string_lt. rewrite String.compare_antisym, Hk. reflexivity.
      * rewrite Forall_forall in Hk'. apply Hk'. exact Hz.
Qed.

Lemma group_keys_In (df : list row) (k : string) :
  In k (group_keys df) <-> exists r, In r df /\ r_family r = k.
Proof.
  unfold group_keys. induction df as [| x df IH]; cbn.
  - split; [intros [] | intros (r & [] & _)].
  - rewrite insert_key_In, IH. split.
    + intros [-> | (r & Hr & Hk)].
      * exists x. split; [left |]; reflexivity.
      * exists r. split; [right |]; assumption.
    + intros (r & [<- | Hr] & Hk).
      * left. symmetry. exact Hk.
      * right. exists r. split; assumption.
Qed.

Lemma group_keys_sorted (df : list row) : StronglySorted string_lt (group_keys df).
Proof.
  unfold group_keys. induction (map r_family df) as [| k ks IH]; cbn.
  - constructor.
  - apply insert_key_sorted. exact IH.
Qed.

(** The group keys are the distinct families: none occurs twice. *)
Lemma group_keys_NoDup (df : list row) : NoDup (group_keys df).
Proof.
  induction (group_keys_sorted df) as [| k ks _ IH Hk]; constructor; [| exact IH].
  intros Hin. rewrite Forall_forall in Hk. specialize (Hk k Hin).
  unfold string_lt in Hk. rewrite string_compare_refl in Hk. discriminate.
Qed.

(** [first] gives one row per non-empty group, with the key as its family. *)
Lemma first_family (k : string) (g : list row) :
  g <> [] -> exists r, first k g = [r] /\ r_family r = k.
Proof.
  destruct g as [| x g]; [congruence |]. intros _.
  eexists. split; reflexivity.
Qed.

Lemma groupby_families (df : list row) :
  map r_family (groupby_family_first df) = group_keys df.
Proof.
  unfold groupby_family_first.
  assert (H : forall ks, (forall k, In k ks -> In k (group_keys df)) ->
                         map r_family (flat_map (fun k => first k (group k df)) ks) = ks).
  { induction ks as [| k ks IH]; intros Hks; cbn; [reflexivity |].
    destruct (first_family k (group k df)) as (r & -> & Hr).
    - destruct (proj1 (group_keys_In df k) (Hks k (or_introl eq_refl))) as (x & Hx & Hk).
      intros Hnil.
      assert (Hin : In x (group k df)).
      { apply filter_In. split; [exact Hx | apply String.eqb_eq; exact Hk]. }
      rewrite Hnil in Hin. destruct Hin.
    - cbn. rewrite Hr. f_equal. apply IH. intros k' Hk'. apply Hks. right. exact Hk'. }
  apply H. intros k Hk. exact Hk.
Qed.

(** Sorting the frame by (family, score, ...) and taking a family's rows
    gives that family's rows sorted by (score, ...). *)
Lemma group_of_sorted (k : string) (df : list row) :
  group k (sort_values by_family_score df) = sort_values by_score (group k df).
Proof.
  unfold group. apply filter_sort_values; [apply weak_order_by_family_score |].
  intros a b Ha Hb. apply String.eqb_eq in Ha, Hb.
  unfold by_family_score. rewrite Ha, Hb, string_compare_refl. reflexivity.
Qed.

(** ** Best per family *)
(** What holds of the sheet on every frame: one row per distinct family, in
    the order of the scores, each row built by [first] from its family's rows
    sorted by (score, price_in, price_out, context descending). *)

Lemma best_per_family_one_per_family (df : list row) :
  NoDup (map r_family (best_per_family df))
  /\ forall k, In k (map r_family (best_per_family df))
               <-> exists r, In r df /\ r_family r = k.
Proof.
  assert (Hperm : Permutation (map r_family (best_per_family df))
                    (group_keys (sort_values by_family_score df))).
  { unfold best_per_family. rewrite <- groupby_families.
    apply Permutation_map. apply sort_values_perm. }
  split.
  - apply (Permutation_NoDup (Permutation_sym Hperm)). apply group_keys_NoDup.
  - intros k. split.
    + intros H. apply (Permutation_in _ Hperm) in H.
      apply group_keys_In in H as (r & Hr & Hk).
      exists r. split; [apply (sort_values_In by_family_score); exact Hr | exact Hk].
    + intros (r & Hr & Hk). apply (Permutation_in _ (Permutation_sym Hperm)).
      apply group_keys_In. exists r.
      split; [apply (sort_values_In by_family_score); exact Hr | exact Hk].
Qed.

Lemma best_per_family_sorted (df : list row) :
  StronglySorted (fun a b => float_le (r_score a) (r_score b)) (best_per_family df).
Proof.
  pose proof (sort_values_sorted by_score_only weak_order_by_score_only
                (groupby_family_first (sort_values by_family_score df))) as H.
  fold (best_per_family df) in H.
  induction H as [| x l _ IH Hx]; constructor; [exact IH |].
  apply Forall_forall. intros y Hy. rewrite Forall_forall in Hx.
  specialize (Hx y Hy). unfold le_by, leb, by_score_only in Hx. unfold float_le.
  destruct (compare_float (r_score x) (r_score y)); congruence.
Qed.

Lemma best_per_family_row (df : list row) (r : row) :
  In r (best_per_family df) ->
  exists g0 rest,
    sort_values by_score (group (r_family r) df) = g0 :: rest
    /\ first (r_family r) (g0 :: rest) = [r]
    /\ (forall y, In y df -> r_family y = r_family r -> leb by_score g0 y = true).
Proof.
  intros H. apply sort_values_In in H.
  unfold groupby_family_first in H. apply in_flat_map in H as (k & _ & H).
  rewrite group_of_sorted in H.
  destruct (sort_values by_score (group k df)) as [| g0 rest] eqn:Hg; [destruct H |].
  destruct H as [<- | []]. cbn [r_family].
  exists g0, rest. split; [exact Hg |]. split; [reflexivity |].
  intros y Hy Hk.
  apply (sort_values_head by_score weak_order_by_score (group k df) g0 rest Hg).
  apply filter_In. split; [exact Hy | apply String.eqb_eq; exact Hk].
Qed.

Lemma first_valid_head {A : Type} (x : option A) (col : list (option A)) :
  x <> None -> first_valid (x :: col) = x.
Proof. destruct x; [reflexivity | congruence]. Qed.

Lemma first_number_head (x : pyfloat) (col : list pyfloat) :
  x <> NaN -> first_number (x :: col) = x.
Proof. destruct x; try reflexivity. congruence. Qed.

(** What [first] takes from the first row of the group: the columns without
    null as they are, and every other column when its entry is not null. *)
Lemma first_columns (k : string) (g0 : row) (rest : list row) (r : row) :
  first k (g0 :: rest) = [r] ->
  r_family r = k
  /\ r_context r = r_context g0 /\ r_free r = r_free g0 /\ r_streaming r = r_streaming g0
  /\ (r_id g0 <> None -> r_id r = r_id g0)
  /\ (r_name g0 <> None -> r_name r = r_name g0)
  /\ (r_price_in g0 <> NaN -> r_price_in r = r_price_in g0)
  /\ (r_price_out g0 <> NaN -> r_price_out r = r_price_out g0)
  /\ (r_score g0 <> NaN -> r_score r = r_score g0).
Proof.
  intros [= <-]. cbn [r_family r_context r_free r_streaming r_id r_name
                       r_price_in r_price_out r_score map].
  repeat split;
    first [reflexivity | apply first_valid_head | apply first_number_head].
Qed.

Lemma first_valid_None {A : Type} (col : list (option A)) :
  first_valid col = None -> forall x, In x col -> x = None.
Proof.
  induction col as [| [a |] col IH]; cbn; [intros _ x [] | discriminate |].
  intros H x [<- | Hx]; [reflexivity | apply IH; assumption].
Qed.

Lemma first_number_NaN (col : list pyfloat) :
  first_number col = NaN -> forall x, In x col -> x = NaN.
Proof.
  induction col as [| a col IH]; cbn; [intros _ x [] |].
  destruct a; try discriminate.
  intros H x [<- | Hx]; [reflexivity | apply IH; assumption].
Qed.

(** A null stays in a column of [first] only when the whole group has null
    there. *)
Lemma first_nulls (k : string) (g : list row) (r y : row) :
  first k g = [r] -> In y g ->
  (r_id r = None -> r_id y = None)
  /\ (r_name r = None -> r_name y = None)
  /\ (r_price_in r = NaN -> r_price_in y = NaN)
  /\ (r_price_out r = NaN -> r_price_out y = NaN)
  /\ (r_score r = NaN -> r_score y = NaN).
Proof.
  destruct g as [| g0 rest]; [discriminate |]. intros [= <-] Hy.
  cbn [r_id r_name r_price_in r_price_out r_score].
  repeat split; intros H.
  - apply (first_valid_None (map r_id (g0 :: rest)) H). apply in_map. exact Hy.
  - apply (first_valid_None (map r_name (g0 :: rest)) H). apply in_map. exact Hy.
  - apply (first_number_NaN (map r_price_in (g0 :: rest)) H). apply in_map. exact Hy.
  - apply (first_number_NaN (map r_price_out (g0 :: rest)) H). apply in_map. exact Hy.
  - apply (first_number_NaN (map r_score (g0 :: rest)) H). apply in_map. exact Hy.
Qed.

(** When the first row of the family has no null in it, the sheet shows that
    very row. *)
Lemma first_whole_row (k : string) (g0 : row) (rest : list row) (r : row) :
  first k (g0 :: rest) = [r] -> r_family g0 = k -> complete g0 -> r = g0.
Proof.
  intros Hfirst Hk (Hid & Hname & Hin & Hout & Hscore).
  destruct (first_columns k g0 rest r Hfirst)
    as (Hf & Hc & Hfr & Hst & Ei & En & Epi & Epo & Es).
  specialize (Ei Hid). specialize (En Hname). specialize (Epi Hin).
  specialize (Epo Hout). specialize (Es Hscore).
  destruct r, g0. cbn in *. congruence.
Qed.

Lemma best_per_family_whole_rows (df : list row) (r : row) :
  Forall complete df ->
  In r (best_per_family df) ->
  In r df
  /\ forall y, In y df -> r_family y = r_family r -> leb by_score r y = true.
Proof.
  intros Hall Hr. destruct (best_per_family_row df r Hr) as (g0 & rest & Hg & Hfirst & Hleast).
  assert (Hin : In g0 (group (r_family r) df)).
  { apply (sort_values_In by_score). rewrite Hg. left. reflexivity. }
  apply filter_In in Hin as [Hin Hk]. apply String.eqb_eq in Hk.
  rewrite Forall_forall in Hall. pose proof (Hall g0 Hin) as Hcomplete.
  rewrite (first_whole_row _ g0 rest r Hfirst Hk Hcomplete).
  split; [exact Hin |].
  intros y Hy Hfam. apply Hleast; [exact Hy |].
  rewrite Hfam. rewrite (first_whole_row _ g0 rest r Hfirst Hk Hcomplete). reflexivity.
Qed.

(** C7 at a failing input.  Two models of the family "acme", the cheaper one
    without a name: the single row of the best-per-family sheet has the id,
    context, prices and score of the cheaper model ("acme/a", the group's
    first row under the ordering) and the name of the other one, so it is no
    row of the normalized set, and not the group's first element. *)
Theorem best_per_family_mixes_rows :
  let df := rows Samples.sample_float Samples.nameless_best in
  exists a b r,
    df = [a; b]
    /\ sort_values by_score (group "acme" df) = [a; b]
    /\ best_per_family df = [r]
    /\ r_id r = r_id a /\ r_score r = r_score a /\ r_price_in r = r_price_in a
    /\ r_name a = None /\ r_name r = r_name b /\ r_name b = Some "Acme B"
    /\ r <> a /\ ~ In r df.
Proof.
  cbv zeta. do 3 eexists.
  split; [vm_compute; reflexivity |].
  split; [vm_compute; reflexivity |].
  split; [vm_compute; reflexivity |].
  repeat split; try discriminate.
  intros [H | [H | []]]; discriminate.
Qed.

End OpenRouterSpec.

(** * Verification of npm-scan.py *)

Module NpmScanSpec.
Import PyStr NpmScan.
Local Open Scope list_scope.

(** ** Induction on documents *)

Section JsonInduction.
Variable P : json -> Prop.
Hypothesis Hnull : P JNull.
Hypothesis Hbool : forall b, P (JBool b).
Hypothesis Hnum : forall q, P (JNum q).
Hypothesis Hstr : forall s, P (JStr s).
Hypothesis Harr : forall items, Forall P items -> P (JArr items).
Hypothesis Hobj : forall d, Forall (fun kv => P (snd kv)) d -> P (JObj d).

Fixpoint json_induction (j : json) : P j :=
  match j with
  | JNull => Hnull
  | JBool b => Hbool b
  | JNum q => Hnum q
  | JStr s => Hstr s
  | JArr items =>
      Harr items
        ((fix all (l : list json) : Forall P l :=
            match l with
            | [] => Forall_nil P
            | x :: l' => Forall_cons x (json_induction x) (all l')
            end) items)
  | JObj d =>
      Hobj d
        ((fix all (l : list (string * json)) : Forall (fun kv => P (snd kv)) l :=
            match l with
            | [] => Forall_nil _
            | (k, v) :: l' => Forall_cons (k, v) (json_induction v) (all l')
            end) d)
  end.

End JsonInduction.

(** The walk over a dependency map looks two levels down (the entries, then
    the members of each entry), so its induction does too. *)
Lemma deps_induction (Q : json -> Prop) :
  (forall j, (forall d, j <> JObj d) -> Q j) ->
  (forall d,
      (forall name fields k sub,
          In (name, JObj fields) d -> In (k, sub) fields -> Q sub) ->
      Q (JObj d)) ->
  forall j, Q j.
Proof.
  intros Hother Hobj.
  assert (H : forall j,
             Q j /\ (forall fields k sub, j = JObj fields -> In (k, sub) fields -> Q sub)).
  { induction j as [| b | q | s | items _ | d IH] using json_induction;
      try (split; [apply Hother; intros d; discriminate | intros f k sub; discriminate]).
    rewrite Forall_forall in IH.
    assert (Hsub : forall k sub, In (k, sub) d -> Q sub).
    { intros k sub Hin. apply (IH (k, sub) Hin). }
    split.
    - apply Hobj. intros name fields k sub Hin Hk.
      destruct (IH (name, JObj fields) Hin) as [_ Hdeep].
      apply (Hdeep fields k sub eq_refl Hk).
    - intros fields k sub [= <-]. apply Hsub. }
  intros j. apply H.
Qed.

(** ** The loop combinators *)

Lemma member_map {T : Type} (k : string) (f : json -> T) (d : list (string * json)) :
  member k f d = option_map f (member k (fun v => v) d).
Proof.
  induction d as [| [k' v] d IH]; cbn; [reflexivity |].
  destruct (String.eqb k' k); [reflexivity | exact IH].
Qed.

Lemma member_In (k : string) (d : list (string * json)) (v : json) :
  member k (fun v => v) d = Some v -> In (k, v) d.
Proof.
  induction d as [| [k' v'] d IH]; cbn; [discriminate |].
  destruct (String.eqb_spec k' k) as [-> | _].
  - intros [= ->]. left. reflexivity.
  - intros H. right. apply IH. exact H.
Qed.

Lemma for_items_cons {S : Type} (body : string -> json -> S -> option S)
  (k : string) (v : json) (d : list (string * json)) (st : S) :
  for_items body ((k, v) :: d) st
  = match body k v st with
    | Some st' => for_items body d st'
    | None => None
    end.
Proof. reflexivity. Qed.

(** An invariant of the state that every iteration keeps is kept by the
    loop. *)
Lemma for_items_invariant {S : Type} (I : S -> Prop)
  (body : string -> json -> S -> option S) (d : list (string * json)) :
  (forall k v st st', In (k, v) d -> I st -> body k v st = Some st' -> I st') ->
  forall st st', I st -> for_items body d st = Some st' -> I st'.
Proof.
  induction d as [| [k v] d IH]; intros Hbody st st' Hst; cbn.
  - intros [= <-]. exact Hst.
  - destruct (body k v st) as [st1 |] eqn:Hb; [| discriminate].
    apply IH.
    + intros k' v' s s' Hin. apply Hbody. right. exact Hin.
    + apply (Hbody k v st st1); [left; reflexivity | exact Hst | exact Hb].
Qed.
(** ** What the pattern extracts *)




(** ** The scraping loop and the deduplicated list *)


Definition is_line (p : printed) : Prop :=
  match p with
  | Line _ => True
  | Json _ => False
  end.

Lemma scrape_log (get : string -> response) (us : list string) (st : scraped) :
  Forall is_line (log st) -> Forall is_line (log (scrape get us st)).
Proof.
  revert st. induction us as [| url us IH]; intros st Hst; cbn; [exact Hst |].
  destruct (get url) as [text | e]; apply IH; cbn; [exact Hst |].
  apply Forall_app. split; [exact Hst | repeat constructor].
Qed.

(** When every request raises, the loop leaves [iocs] and [fetched_online]
    as they were. *)
Lemma scrape_all_raised (get : string -> response) (us : list string) (st : scraped) :
  (forall url, In url us -> exists e, get url = Raised e) ->
  iocs (scrape get us st) = iocs st
  /\ fetched_online (scrape get us st) = fetched_online st.
Proof.
  revert st. induction us as [| url us IH]; intros st Hall; cbn; [split; reflexivity |].
  destruct (Hall url (or_introl eq_refl)) as [e ->].
  match goal with
  | |- context [scrape get us ?st'] => destruct (IH st') as [-> ->]
  end; [| split; reflexivity].
  intros u Hu. apply Hall. right. exact Hu.
Qed.

(** [fetched_online] ends up true exactly when some request succeeded (or it
    was true before). *)
Lemma scrape_fetched_online (get : string -> response) (us : list string) (st : scraped) :
  fetched_online (scrape get us st) = true
  <-> fetched_online st = true \/ exists url text, In url us /\ get url = Page text.
Proof.
  revert st. induction us as [| url us IH]; intros st; cbn.
  - split; [left; assumption | intros [H | (u & t & [] & _)]; exact H].
  - destruct (get url) as [text | e] eqn:Hg; rewrite IH; cbn; split.
    + intros _. right. exists url, text. split; [left; reflexivity | exact Hg].
    + intros _. left. reflexivity.
    + intros [H | (u & t & Hu & Ht)]; [left; exact H |].
      right. exists u, t. split; [right; exact Hu | exact Ht].
    + intros [H | (u & t & [<- | Hu] & Ht)]; [left; exact H | congruence |].
      right. exists u, t. split; assumption.
Qed.

Lemma dict_set_In {V : Type} (k : string) (v : V) (d : list (string * V)) (kv : string * V) :
  In kv (dict_set k v d) -> kv = (k, v) \/ In kv d.
Proof.
  induction d as [| [k' v'] d IH]; cbn.
  - intros [<- | []]. left. reflexivity.
  - destruct (String.eqb k' k); cbn.
    + intros [<- | H]; [left; reflexivity | right; right; exact H].
    + intros [<- | H]; [right; left; reflexivity |].
      destruct (IH H) as [-> | H']; [left; reflexivity | right; right; exact H'].
Qed.

(** Deduplication invents nothing: the list holds only extracted IOCs. *)
Lemma iocs_list_In (l : list ioc) (i : ioc) : In i (iocs_list l) -> In i l.
Proof.
  unfold iocs_list, unique_iocs.
  assert (H : forall d kv,
             In kv (fold_left (fun d i => dict_set (package i ++ "@" ++ version i)%string i d) l d) ->
             In kv d \/ In (snd kv) l).
  { induction l as [| x l IH]; intros d kv; cbn; [left; assumption |].
    intros Hin. destruct (IH _ _ Hin) as [Hd | Hl]; [| right; right; exact Hl].
    destruct (dict_set_In _ _ _ _ Hd) as [-> | Hd']; [right; left; reflexivity | left; exact Hd']. }
  intros Hin. apply in_map_iff in Hin as (kv & <- & Hkv).
  destruct (H [] kv Hkv) as [[] | Hl]. exact Hl.
Qed.

Lemma iocs_list_nil : iocs_list [] = [].
Proof. reflexivity. Qed.

(** ** Findings are IOCs of the list *)

Section Findings.
Variable iocs_list : list ioc.

(** [found'] is [found] with IOCs of the list appended. *)
Definition extends (found found' : list ioc) : Prop :=
  exists extra, found' = found ++ extra /\ incl extra iocs_list.

Lemma extends_refl (found : list ioc) : extends found found.
Proof. exists []. split; [symmetry; apply app_nil_r | intros x []]. Qed.

Lemma extends_trans (a b c : list ioc) : extends a b -> extends b c -> extends a c.
Proof.
  intros (e1 & -> & H1) (e2 & -> & H2). exists (e1 ++ e2). split.
  - symmetry. apply app_assoc.
  - apply incl_app; assumption.
Qed.

Lemma check_extends (name : string) (ver : json) (found : list ioc) :
  extends found (check iocs_list name ver found).
Proof.
  unfold check. destruct (truthy ver); [| apply extends_refl].
  eexists. split; [reflexivity |].
  intros x Hx. apply filter_In in Hx. apply Hx.
Qed.

Lemma extract_from_v1_obj (d : list (string * json)) (found : list ioc) :
  extract_from_v1 iocs_list (JObj d) found
  = for_items
      (fun name info found =>
         match info with
         | JObj fields =>
             let found := check iocs_list name (get "version" fields) found in
             match member "dependencies" (fun sub => extract_from_v1 iocs_list sub found) fields with
             | Some result => result
             | None => Some found
             end
         | _ => None
         end) d found.
Proof. reflexivity. Qed.

Lemma extract_from_v1_extends (deps : json) :
  forall found found',
    extract_from_v1 iocs_list deps found = Some found' -> extends found found'.
Proof.
  induction deps as [j Hj | d IH] using deps_induction; intros found found'.
  - destruct j; try discriminate. exfalso. apply (Hj members). reflexivity.
  - rewrite extract_from_v1_obj. intros H.
    revert H. apply for_items_invariant; [| apply extends_refl].
    intros name info st st' Hin Hst.
    destruct info as [| | | | | fields]; try discriminate.
    cbv zeta. rewrite member_map.
    destruct (member "dependencies" (fun v => v) fields) as [sub |] eqn:Hsub; cbn.
    + intros H. apply (IH name fields "dependencies" sub Hin (member_In _ _ _ Hsub)) in H.
      eapply extends_trans; [exact Hst |].
      eapply extends_trans; [apply check_extends | exact H].
    + intros [= <-]. eapply extends_trans; [exact Hst | apply check_extends].
Qed.

Lemma extract_from_v2_extends (packages_dict : json) (found found' : list ioc) :
  extract_from_v2 iocs_list packages_dict found = Some found' -> extends found found'.
Proof.
  destruct packages_dict as [| | | | | d]; try discriminate. cbn [extract_from_v2].
  apply for_items_invariant; [| apply extends_refl].
  intros path info st st' _ Hst.
  destruct (startswith "node_modules/" path).
  - destruct info; try discriminate. intros [= <-].
    eapply extends_trans; [exact Hst | apply check_extends].
  - intros [= <-]. exact Hst.
Qed.

Lemma scan_incl (lock_data : json) (found : list ioc) :
  scan iocs_list lock_data = Some found -> incl found iocs_list.
Proof.
  assert (Hnil : forall l, extends [] l -> incl l iocs_list).
  { intros l (extra & -> & H). exact H. }
  destruct lock_data as [| | | s | items | d]; try discriminate; cbn [scan].
  - destruct (contains "packages" s); [discriminate |].
    destruct (contains "dependencies" s); [discriminate |].
    intros [= <-] x [].
  - destruct (existsb (eq_str "packages") items); [discriminate |].
    destruct (existsb (eq_str "dependencies") items); [discriminate |].
    intros [= <-] x [].
  - rewrite (member_map "packages" (fun p => extract_from_v2 iocs_list p [])).
    destruct (member "packages" (fun v => v) d) as [p |]; cbn [option_map].
    + intros H. apply Hnil. apply extract_from_v2_extends with (1 := H).
    + rewrite (member_map "dependencies" (fun deps => extract_from_v1 iocs_list deps [])).
      destruct (member "dependencies" (fun v => v) d) as [deps |]; cbn [option_map].
      * intros H. apply Hnil. apply extract_from_v1_extends with (1 := H).
      * intros [= <-] x [].
Qed.
(** *** The v1 walk visits every level *)

Lemma check_hit (name : string) (found : list ioc) (i : ioc) :
  In i iocs_list -> package i = name -> version i <> EmptyString ->
  In i (check iocs_list name (JStr (version i)) found).
Proof.
  intros Hin Hname Hver. unfold check. cbn [truthy].
  destruct (String.eqb_spec (version i) "") as [He | _]; [contradiction |].
  cbn [negb]. apply in_or_app. right. apply filter_In. split; [exact Hin |].
  cbn [eq_str]. rewrite Hname, !String.eqb_refl. reflexivity.
Qed.

Lemma extends_In (found found' : list ioc) (i : ioc) :
  extends found found' -> In i found -> In i found'.
Proof. intros (extra & -> & _) H. apply in_or_app. left. exact H. Qed.


Lemma wf_v1_obj (d : list (string * json)) :
  wf_v1 (JObj d)
  = forallb
      (fun '(_, info) =>
         match info with
         | JObj fields =>
             match member "dependencies" wf_v1 fields with
             | Some ok => ok
             | None => true
             end
         | _ => false
         end) d.
Proof. reflexivity. Qed.

(** On a well-formed dependency map the walk raises nothing. *)
Lemma extract_from_v1_total (deps : json) :
  forall found,
    wf_v1 deps = true -> exists found', extract_from_v1 iocs_list deps found = Some found'.
Proof.
  induction deps as [j Hj | d Hsub] using deps_induction; intros found.
  - destruct j; try discriminate. exfalso. apply (Hj members). reflexivity.
  - revert found. induction d as [| [n0 info0] d IHd]; intros found Hwf.
    + exists found. reflexivity.
    + rewrite wf_v1_obj in Hwf. cbn [forallb] in Hwf.
      apply andb_true_iff in Hwf as [Hinfo Hwf]. rewrite <- wf_v1_obj in Hwf.
      destruct info0 as [| | | | | f0]; try discriminate.
      rewrite extract_from_v1_obj. cbn [for_items]. cbv zeta.
      rewrite (member_map "dependencies"). rewrite (member_map "dependencies") in Hinfo.
      set (found1 := check iocs_list n0 (get "version" f0) found).
      assert (IHtail : forall f, exists found', extract_from_v1 iocs_list (JObj d) f = Some found').
      { intros f. apply (IHd (fun nm fs k sub H => Hsub nm fs k sub (or_intror H)) f Hwf). }
      destruct (member "dependencies" (fun v => v) f0) as [sub |] eqn:Hm;
        cbn [option_map] in Hinfo |- *.
      * destruct (Hsub n0 f0 "dependencies" sub (or_introl eq_refl) (member_In _ _ _ Hm)
                    found1 Hinfo) as [found2 ->].
        apply IHtail.
      * apply IHtail.
Qed.
(** *** The v2 walk and the dispatch on well-formed documents *)

Lemma extract_from_v2_total (packages_dict : json) (found : list ioc) :
  wf_v2 packages_dict = true ->
  exists found', extract_from_v2 iocs_list packages_dict found = Some found'.
Proof.
  destruct packages_dict as [| | | | | d]; try discriminate.
  cbn [wf_v2 extract_from_v2]. revert found.
  induction d as [| [path info] d IH]; intros found Hwf.
  - exists found. reflexivity.
  - cbn [forallb] in Hwf. apply andb_true_iff in Hwf as [Hinfo Hwf].
    rewrite for_items_cons.
    destruct (startswith "node_modules/" path).
    + destruct info; try discriminate Hinfo. apply IH. exact Hwf.
    + apply IH. exact Hwf.
Qed.

Lemma has_key_item (k : string) (d : list (string * json)) :
  has_key k d = true <-> exists v, item k d = Some v.
Proof.
  unfold has_key, item. induction d as [| [k' v'] d IH]; cbn.
  - split; [discriminate | intros [v H]; discriminate].
  - destruct (String.eqb k' k); cbn.
    + split; [intros _; exists v'; reflexivity | reflexivity].
    + exact IH.
Qed.

Lemma has_key_false (k : string) (d : list (string * json)) :
  has_key k d = false <-> item k d = None.
Proof.
  rewrite <- not_true_iff_false, has_key_item. split.
  - intros H. destruct (item k d) as [v |]; [exfalso; apply H; exists v |]; reflexivity.
  - intros -> [v H]. discriminate.
Qed.

(** The dispatch, by cases on the two members. *)
Lemma scan_obj (d : list (string * json)) :
  scan iocs_list (JObj d)
  = match item "packages" d with
    | Some p => extract_from_v2 iocs_list p []
    | None =>
        match item "dependencies" d with
        | Some deps => extract_from_v1 iocs_list deps []
        | None => Some []
        end
    end.
Proof.
  cbn [scan]. unfold item.
  rewrite (member_map "packages" (fun p => extract_from_v2 iocs_list p [])).
  rewrite (member_map "dependencies" (fun deps => extract_from_v1 iocs_list deps [])).
  destruct (member "packages" (fun v => v) d); cbn [option_map]; [reflexivity |].
  destruct (member "dependencies" (fun v => v) d); reflexivity.
Qed.

Lemma scan_total (lock_data : json) :
  wf_lock lock_data = true -> exists found, scan iocs_list lock_data = Some found.
Proof.
  destruct lock_data as [| | | | | d]; try discriminate.
  rewrite scan_obj. cbn [wf_lock]. unfold item.
  rewrite (member_map "packages" wf_v2), (member_map "dependencies" wf_v1).
  destruct (member "packages" (fun v => v) d) as [p |]; cbn [option_map].
  - apply extract_from_v2_total.
  - destruct (member "dependencies" (fun v => v) d) as [deps |]; cbn [option_map].
    + apply extract_from_v1_total.
    + intros _. exists []. reflexivity.
Qed.

End Findings.
(** ** The script as a whole *)

Lemma main_cases (w : world) :
  let path := fst (parse_args (argv w) "./package-lock.json" false) in
  let output_json := snd (parse_args (argv w) "./package-lock.json" false) in
  let s := scrape (fetch w) urls start in
  main w
  = if negb (isfile w path) then
      Exit 2 (log s ++ [Line ("Arquivo '" ++ path ++ "' não encontrado.")%string])
    else
      match load w path with
      | None => Traceback (log s)
      | Some lock_data =>
          match scan (iocs_list (iocs s)) lock_data with
          | None => Traceback (log s)
          | Some found =>
              Exit 0 (log s ++ render w path output_json (fetched_online s)
                                 (iocs_list (iocs s)) found)
          end
      end.
Proof.
  unfold main. destruct (parse_args (argv w) "./package-lock.json" false). reflexivity.
Qed.

Lemma lines_hold_no_document (out : list printed) (r : report) :
  Forall is_line out -> ~ In (Json r) out.
Proof. intros Hall Hin. rewrite Forall_forall in Hall. exact (Hall _ Hin). Qed.

(** The structured mode prints one document, built from the variables of the
    run; the text mode prints none. *)
Lemma render_document (w : world) (path : string) (output_json fetched : bool)
  (il found : list ioc) (r : report) :
  In (Json r) (render w path output_json fetched il found) ->
  output_json = true
  /\ status r = status_of found
  /\ fetched_from_internet r = fetched
  /\ findings r = found
  /\ iocs_source r = il.
Proof.
  unfold render. destruct output_json.
  - intros [[= <-] | []]. repeat split.
  - intros H. exfalso. revert H. apply lines_hold_no_document.
    repeat constructor.
    destruct (String.eqb (status_of found) "clean"); repeat constructor.
    apply Forall_app. split; [| repeat constructor].
    apply Forall_map. apply Forall_forall. intros; exact I.
Qed.

Lemma main_document (w : world) (r : report) :
  In (Json r) (stdout_of (main w)) ->
  exists lock_data,
    load w (fst (parse_args (argv w) "./package-lock.json" false)) = Some lock_data
    /\ scan (iocs_list (iocs (scrape (fetch w) urls start))) lock_data = Some (findings r)
    /\ status r = status_of (findings r)
    /\ fetched_from_internet r = fetched_online (scrape (fetch w) urls start)
    /\ iocs_source r = iocs_list (iocs (scrape (fetch w) urls start)).
Proof.
  rewrite main_cases. cbv zeta.
  set (s := scrape (fetch w) urls start).
  assert (Hlog : Forall is_line (log s)) by (apply scrape_log; constructor).
  destruct (isfile w _); cbn [negb stdout_of].
  - destruct (load w _) as [lock_data |];
      [| intros H; exfalso; exact (lines_hold_no_document _ _ Hlog H)].
    destruct (scan _ lock_data) as [found |] eqn:Hscan;
      [| intros H; exfalso; exact (lines_hold_no_document _ _ Hlog H)].
    cbn [stdout_of]. intros H. apply in_app_or in H as [H | H];
      [exfalso; exact (lines_hold_no_document _ _ Hlog H) |].
    apply render_document in H as (_ & Hst & Hfe & Hfi & Hso).
    exists lock_data. rewrite Hfi. repeat split; assumption.
  - intros H. apply in_app_or in H as [H | [[=] | []]].
    exfalso. exact (lines_hold_no_document _ _ Hlog H).
Qed.
(** ** The claims *)

(** C10.  Whatever the advisory pages and the lockfile hold, every finding is
    an element of the deduplicated IOC list: for the matcher on any document,
    and for the document the structured mode prints, whose [findings] are all
    among its [iocs_source]. *)
Theorem findings_are_listed_iocs (w : world) :
  let listed := iocs_list (iocs (scrape (fetch w) urls start)) in
  (forall lock_data found i,
      scan listed lock_data = Some found -> In i found -> In i listed)
  /\ (forall r i,
        In (Json r) (stdout_of (main w)) ->
        iocs_source r = listed /\ (In i (findings r) -> In i (iocs_source r))).
Proof.
  cbv zeta. split.
  - intros lock_data found i Hscan. apply (scan_incl _ _ _ Hscan).
  - intros r i Hr. apply main_document in Hr as (lock_data & _ & Hscan & _ & _ & Hsrc).
    split; [exact Hsrc |]. rewrite Hsrc. apply (scan_incl _ _ _ Hscan).
Qed.

Lemma findings_are_listed_iocs_witness :
  In (Json Samples.online_v1_report) (stdout_of (main Samples.online_v1))
  /\ In Samples.chalk (findings Samples.online_v1_report)
  /\ In Samples.chalk (iocs_source Samples.online_v1_report).
Proof.
  assert (Hr : In (Json Samples.online_v1_report) (stdout_of (main Samples.online_v1))).
  { vm_compute. left. reflexivity. }
  assert (Hc : In Samples.chalk (findings Samples.online_v1_report)).
  { left. reflexivity. }
  split; [exact Hr |]. split; [exact Hc |].
  destruct (findings_are_listed_iocs Samples.online_v1) as [_ H].
  apply (H Samples.online_v1_report Samples.chalk Hr). exact Hc.
Defined.

(** C3.  When every advisory request fails, the IOC list is empty and
    [fetched_online] stays false; the matcher then finds nothing in any
    well-formed lockfile, the status is "clean", and the document printed in
    the structured mode says so. *)
Theorem total_fetch_failure_is_clean (w : world) :
  (forall url, In url urls -> exists e, fetch w url = Raised e) ->
  let s := scrape (fetch w) urls start in
  let path := fst (parse_args (argv w) "./package-lock.json" false) in
  let output_json := snd (parse_args (argv w) "./package-lock.json" false) in
  iocs_list (iocs s) = []
  /\ fetched_online s = false
  /\ (forall lock_data,
        wf_lock lock_data = true ->
        scan (iocs_list (iocs s)) lock_data = Some [] /\ status_of [] = "clean")
  /\ (forall lock_data,
        isfile w path = true -> load w path = Some lock_data -> wf_lock lock_data = true ->
        main w = Exit 0 (log s ++ render w path output_json false [] []))
  /\ (forall r,
        In (Json r) (stdout_of (main w)) ->
        findings r = [] /\ status r = "clean" /\ fetched_from_internet r = false).
Proof.
  intros Hfail. cbv zeta.
  destruct (scrape_all_raised (fetch w) urls start Hfail) as [Hiocs Hfetched].
  cbn [start iocs fetched_online] in Hiocs, Hfetched.
  assert (Hlist : iocs_list (iocs (scrape (fetch w) urls start)) = []).
  { rewrite Hiocs. apply iocs_list_nil. }
  assert (Hscan : forall lock_data found, scan [] lock_data = Some found -> found = []).
  { intros lock_data found H. apply scan_incl in H.
    destruct found as [| x found]; [reflexivity |].
    destruct (H x (or_introl eq_refl)). }
  assert (Hwf : forall lock_data, wf_lock lock_data = true -> scan [] lock_data = Some []).
  { intros lock_data H. destruct (scan_total [] lock_data H) as [found Hf].
    rewrite Hf. f_equal. apply (Hscan _ _ Hf). }
  split; [exact Hlist |]. split; [exact Hfetched |]. split; [| split].
  - intros lock_data H. rewrite Hlist. split; [apply Hwf; exact H | reflexivity].
  - intros lock_data Hfile Hload H. rewrite main_cases. cbv zeta.
    rewrite Hfile, Hload, Hlist, Hfetched, (Hwf lock_data H). reflexivity.
  - intros r Hr. apply main_document in Hr as (lock_data & _ & Hs & Hst & Hfe & _).
    rewrite Hlist in Hs. apply Hscan in Hs.
    rewrite Hst, Hfe, Hs. repeat split. exact Hfetched.
Qed.

Lemma total_fetch_failure_is_clean_witness :
  In (Json Samples.offline_v2_report) (stdout_of (main Samples.offline_v2))
  /\ scan (iocs_list (iocs (scrape (fetch Samples.offline_v2) urls start))) Samples.lock_v2
     = Some []
  /\ status Samples.offline_v2_report = "clean"
  /\ fetched_from_internet Samples.offline_v2_report = false.
Proof.
  assert (Hfail : forall url, In url urls -> exists e, fetch Samples.offline_v2 url = Raised e).
  { intros url _. exists "timeout". reflexivity. }
  destruct (total_fetch_failure_is_clean Samples.offline_v2 Hfail)
    as (_ & _ & Hscan & _ & Hreport).
  assert (Hr : In (Json Samples.offline_v2_report) (stdout_of (main Samples.offline_v2))).
  { vm_compute. right. left. reflexivity. }
  split; [exact Hr |]. split; [apply Hscan; reflexivity |].
  apply (Hreport Samples.offline_v2_report Hr).
Defined.


(** C8.  For a lockfile that is an object: with a ["packages"] member the
    flat walk runs on it; otherwise, with a ["dependencies"] member, the
    recursive walk runs on that; with neither, nothing is scanned and the
    findings are empty, with no exception raised, and the script ends with
    status 0 reporting a clean result. *)
Theorem schema_dispatch (listed : list ioc) (d : list (string * json)) :
  (has_key "packages" d = true ->
   exists p, item "packages" d = Some p
             /\ scan listed (JObj d) = extract_from_v2 listed p [])
  /\ (has_key "packages" d = false -> has_key "dependencies" d = true ->
      exists deps, item "dependencies" d = Some deps
                   /\ scan listed (JObj d) = extract_from_v1 listed deps [])
  /\ (has_key "packages" d = false -> has_key "dependencies" d = false ->
      scan listed (JObj d) = Some []
      /\ forall w,
           isfile w (fst (parse_args (argv w) "./package-lock.json" false)) = true ->
           load w (fst (parse_args (argv w) "./package-lock.json" false)) = Some (JObj d) ->
           exit_status (main w) = 0
           /\ forall r, In (Json r) (stdout_of (main w)) ->
                        findings r = [] /\ status r = "clean").
Proof.
  split; [| split].
  - intros H. apply has_key_item in H as [p Hp]. exists p.
    split; [exact Hp |]. rewrite scan_obj, Hp. reflexivity.
  - intros Hp H. apply has_key_false in Hp. apply has_key_item in H as [deps Hd].
    exists deps. split; [exact Hd |]. rewrite scan_obj, Hp, Hd. reflexivity.
  - intros Hp Hd. apply has_key_false in Hp, Hd.
    assert (Hscan : forall l, scan l (JObj d) = Some []).
    { intros l. rewrite scan_obj, Hp, Hd. reflexivity. }
    split; [apply Hscan |].
    intros w Hfile Hload. split.
    + rewrite main_cases. cbv zeta. rewrite Hfile, Hload, Hscan. reflexivity.
    + intros r Hr. apply main_document in Hr as (lock_data & Hl & Hs & Hst & _).
      rewrite Hload in Hl. injection Hl as <-. rewrite Hscan in Hs.
      injection Hs as Hs. rewrite Hst, <- Hs. split; reflexivity.
Qed.

Lemma schema_dispatch_witness :
  scan [Samples.chalk] Samples.lock_v2 = Some [Samples.chalk]
  /\ scan [Samples.chalk] Samples.lock_v1 = Some [Samples.chalk]
  /\ scan [Samples.chalk] Samples.lock_other = Some [].
Proof.
  split; [| split].
  - destruct (schema_dispatch [Samples.chalk]
                [("lockfileVersion", JNum 3);
                 ("packages",
                   JObj [("", JObj [("name", JStr "app")]);
                         ("node_modules/chalk", JObj [("version", JStr "5.6.1")]);
                         ("node_modules/ms", JObj [("version", JStr "2.1.3")])])])
      as (H & _ & _).
    destruct (H eq_refl) as (p & Hp & Hscan).
    unfold Samples.lock_v2. rewrite Hscan.
    injection Hp as <-. reflexivity.
  - destruct (schema_dispatch [Samples.chalk]
                [("lockfileVersion", JNum 1); ("dependencies", Samples.deep_deps)])
      as (_ & H & _).
    destruct (H eq_refl eq_refl) as (deps & Hd & Hscan).
    unfold Samples.lock_v1. rewrite Hscan.
    injection Hd as <-. reflexivity.
  - destruct (schema_dispatch [Samples.chalk]
                [("name", JStr "app"); ("lockfileVersion", JNum 1)])
      as (_ & _ & H).
    destruct (H eq_refl eq_refl) as [Hscan _]. exact Hscan.
Defined.

(** C9.  The script ends with status 2 exactly when the resolved lockfile
    path is not a file, and its last line then names that path; when the file
    loads and the matcher returns, it ends with status 0, with findings or
    without. *)
Theorem exit_statuses (w : world) :
  let path := fst (parse_args (argv w) "./package-lock.json" false) in
  let listed := iocs_list (iocs (scrape (fetch w) urls start)) in
  (exit_status (main w) = 2 <-> isfile w path = false)
  /\ (isfile w path = false ->
      exists out,
        main w = Exit 2 (out ++ [Line ("Arquivo '" ++ path ++ "' não encontrado.")%string]))
  /\ (forall lock_data found,
        isfile w path = true -> load w path = Some lock_data ->
        scan listed lock_data = Some found ->
        exists out, main w = Exit 0 out /\ exit_status (main w) = 0).
Proof.
  cbv zeta. rewrite main_cases. cbv zeta.
  split; [| split].
  - destruct (isfile w _); cbn [negb].
    + split; [| discriminate].
      destruct (load w _) as [lock_data |]; [| discriminate].
      destruct (scan _ lock_data); discriminate.
    + split; reflexivity.
  - intros ->. cbn [negb]. eexists. reflexivity.
  - intros lock_data found -> -> ->. cbn [negb]. eexists. split; reflexivity.
Qed.

Lemma exit_statuses_witness :
  exit_status (main Samples.no_lockfile) = 2
  /\ (exists out,
         main Samples.no_lockfile
         = Exit 2 (out ++ [Line "Arquivo 'missing.json' não encontrado."]))
  /\ exit_status (main Samples.online_v2) = 0
  /\ exit_status (main Samples.offline_v2) = 0.
Proof.
  destruct (exit_statuses Samples.no_lockfile) as (Hiff & Hmsg & _).
  destruct (exit_statuses Samples.online_v2) as (_ & _ & Hon).
  destruct (exit_statuses Samples.offline_v2) as (_ & _ & Hoff).
  split; [apply Hiff; reflexivity |].
  split; [apply Hmsg; reflexivity |].
  split.
  - destruct (Hon Samples.lock_v2 [Samples.chalk] eq_refl eq_refl) as (out & _ & H);
      [vm_compute; reflexivity | exact H].
  - destruct (Hoff Samples.lock_v2 [] eq_refl eq_refl) as (out & _ & H);
      [vm_compute; reflexivity | exact H].
Defined.

End NpmScanSpec.

(** * More of openrouter.py: the helpers, the normalizer and the rankings *)

Module OpenRouterMore.
Import PyStr OpenRouter OpenRouterSpec.
Local Open Scope list_scope.

(** ** [ctx_of] and [family] *)

(** X1.  The provider's context length is used when it is there and not
    zero; an absent or zero override falls back to the base field; the result
    is zero exactly when neither field holds a non-zero value. *)
Theorem ctx_of_prefers_provider (m : model) :
  (forall z, top_provider_context_length m = Some z -> z <> 0 -> ctx_of m = z)
  /\ (forall z,
        top_provider_context_length m = None \/ top_provider_context_length m = Some 0 ->
        context_length m = Some z -> ctx_of m = z)
  /\ (ctx_of m = 0 <->
      (top_provider_context_length m = None \/ top_provider_context_length m = Some 0)
      /\ (context_length m = None \/ context_length m = Some 0)).
Proof.
  unfold ctx_of, or_int.
  destruct (top_provider_context_length m) as [t |], (context_length m) as [c |];
    repeat match goal with
           | |- context [?z =? 0] => destruct (Z.eqb_spec z 0)
           end;
    subst; repeat split; intros;
    repeat match goal with
           | H : _ /\ _ |- _ => destruct H
           | H : _ \/ _ |- _ => destruct H
           | H : Some _ = Some _ |- _ => injection H as H; subst
           end;
    try congruence; try (left; congruence); try (right; congruence);
    try (split; [left | left]; congruence);
    try (split; [left | right]; congruence);
    try (split; [right | left]; congruence);
    try (split; [right | right]; congruence).
Qed.

Lemma ctx_of_prefers_provider_witness :
  ctx_of {| id := Some "a/b"; name := None;
            top_provider_context_length := Some 32768; context_length := Some 131072;
            pricing_prompt := FNone; pricing_completion := FNone |} = 32768
  /\ ctx_of {| id := Some "a/b"; name := None;
               top_provider_context_length := Some 0; context_length := Some 131072;
               pricing_prompt := FNone; pricing_completion := FNone |} = 131072.
Proof.
  split.
  - apply (proj1 (ctx_of_prefers_provider _) 32768); [reflexivity | discriminate].
  - apply (proj1 (proj2 (ctx_of_prefers_provider _)) 131072); [right |]; reflexivity.
Defined.

Lemma before_no_sep (sep : ascii) (s : string) :
  contains (String sep EmptyString) (before sep s) = false.
Proof.
  induction s as [| c s IH]; cbn; [reflexivity |].
  destruct (Ascii.eqb_spec c sep) as [-> | Hne]; cbn; [reflexivity |].
  rewrite IH. destruct (Ascii.eqb_spec sep c) as [-> | _]; [contradiction | reflexivity].
Qed.

Lemma before_prefix (sep : ascii) (s : string) :
  s = before sep s
  \/ exists rest, s = (before sep s ++ String sep rest)%string.
Proof.
  induction s as [| c s IH]; cbn; [left; reflexivity |].
  destruct (Ascii.eqb_spec c sep) as [-> | Hne]; cbn.
  - right. exists s. reflexivity.
  - destruct IH as [IH | [rest IH]].
    + left. congruence.
    + right. exists rest. congruence.
Qed.

(** X2.  The family holds no "/"; the id is the family itself or the family,
    a "/" and more text; a record without an id is of the empty family. *)
Theorem family_is_the_text_before_the_first_slash (mid : option string) :
  contains "/" (family mid) = false
  /\ (or_empty mid = family mid
      \/ exists rest, or_empty mid = (family mid ++ "/" ++ rest)%string)
  /\ family None = EmptyString.
Proof.
  unfold family. split; [apply before_no_sep |]. split; [apply before_prefix | reflexivity].
Qed.

(** ** The normalizer *)

Section Normalizer.
Variable float_of_str : string -> option pyfloat.

Lemma rows_app (a b : list model) :
  rows float_of_str (a ++ b) = rows float_of_str a ++ rows float_of_str b.
Proof.
  induction a as [| m a IH]; cbn; [reflexivity |].
  destruct (normalize float_of_str m); cbn; rewrite IH; reflexivity.
Qed.

Lemma rows_length (models : list model) :
  (length (rows float_of_str models) <= length models)%nat.
Proof.
  induction models as [| m ms IH]; cbn; [lia |].
  destruct (normalize float_of_str m); cbn; lia.
Qed.

(** X3.  Records are normalized one by one and in order: the rows of two
    catalogues put end to end are the rows of the first followed by the rows
    of the second, and there are never more rows than records. *)
Theorem rows_are_built_record_by_record (a b : list model) :
  rows float_of_str (a ++ b) = rows float_of_str a ++ rows float_of_str b
  /\ (length (rows float_of_str (a ++ b)) <= length a + length b)%nat.
Proof.
  split; [apply rows_app |].
  rewrite <- length_app. apply rows_length.
Qed.

Lemma rows_nil_iff (models : list model) :
  rows float_of_str models = [] <-> forall m, In m models -> normalize float_of_str m = None.
Proof.
  induction models as [| m ms IH]; cbn.
  - split; [intros _ x [] | reflexivity].
  - destruct (normalize float_of_str m) as [r |] eqn:Hm.
    + split; [discriminate |]. intros H. specialize (H m (or_introl eq_refl)). congruence.
    + rewrite IH. split.
      * intros H x [<- | Hx]; [exact Hm | apply H; exact Hx].
      * intros H x Hx. apply H. right. exact Hx.
Qed.

(** X4.  The ranking step fails, with no sheet produced, exactly when no
    record of the catalogue survives normalization (an empty catalogue
    included); otherwise it produces the three sheets. *)
Theorem ranker_fails_exactly_without_rows (models : list model) :
  (ranker (rows float_of_str models) = None
   <-> forall m, In m models -> normalize float_of_str m = None)
  /\ (ranker (rows float_of_str models) <> None
      <-> exists m r, In m models /\ normalize float_of_str m = Some r).
Proof.
  assert (H : ranker (rows float_of_str models) = None <-> rows float_of_str models = []).
  { destruct (rows float_of_str models); cbn; split; congruence. }
  split.
  - rewrite H. apply rows_nil_iff.
  - rewrite H. split.
    + intros Hne. destruct (rows float_of_str models) as [| r rs] eqn:Hr; [congruence |].
      assert (Hin : In r (rows float_of_str models)) by (rewrite Hr; left; reflexivity).
      apply rows_In in Hin as (m & Hm & Hn). exists m, r. split; assumption.
    + intros (m & r & Hm & Hn) Hnil.
      apply rows_nil_iff with (m := m) in Hnil; [congruence | exact Hm].
Qed.

End Normalizer.
(** ** What every normalized row satisfies *)

Lemma round_half_even_zero (x : Q) : x == 0 -> round_half_even x = 0.
Proof.
  intros H. unfold round_half_even. rewrite (Qfloor_comp x 0 H).
  change (Qfloor 0) with 0.
  destruct (Qcompare_spec (x - inject_Z 0) (1 # 2)) as [He | _ | Hgt]; [| reflexivity |].
  - exfalso. rewrite H in He. discriminate He.
  - exfalso. rewrite H in Hgt. discriminate Hgt.
Qed.

Lemma round_Q_zero (x : Q) (n : Z) : x == 0 -> round_Q x n == 0.
Proof.
  intros H. unfold round_Q. rewrite round_half_even_zero.
  - unfold Qdiv. apply Qmult_0_l.
  - rewrite H. apply Qmult_0_l.
Qed.

Lemma feq_zero (x : pyfloat) : feq x (Fin 0) = true <-> float_eq x (Fin 0).
Proof.
  unfold float_eq. destruct x as [q | | |]; cbn; try (split; discriminate).
  rewrite Qeq_bool_iff. apply Qeq_alt.
Qed.

Lemma float_eq_zero (x : pyfloat) :
  float_eq x (Fin 0) -> exists q, x = Fin q /\ q == 0.
Proof.
  unfold float_eq. destruct x as [q | | |]; cbn; try discriminate.
  intros H. exists q. split; [reflexivity | apply Qeq_alt; exact H].
Qed.

Lemma score_not_negative (p_in p_out : pyfloat) (ctx : Z) :
  ~ negative p_in -> ~ negative p_out -> ~ negative (score p_in p_out ctx).
Proof.
  unfold score. destruct (ctx <=? 0); [intros _ _ [] |]. cbv zeta.
  generalize (inject_Z (Z.min ctx CTX_CAP) / inject_Z BASE_CTX)%Q. intros d.
  destruct (Qltb 0 d) eqn:Hd; [| intros _ _ []]. apply Qltb_lt in Hd.
  destruct p_in as [a | | |], p_out as [b | | |]; cbn [negative]; intros Hi Ho;
    try tauto; try (vm_compute; tauto).
  change (~ ((W_IN * a + W_OUT * b) / d < 0)%Q).
  apply Qnot_lt_le in Hi, Ho. apply Qle_not_lt.
  apply Qle_shift_div_l; [exact Hd |].
  rewrite Qmult_0_l. apply avg_nonneg; assumption.
Qed.

Lemma score_nan (p_in p_out : pyfloat) (ctx : Z) :
  0 < ctx -> p_in = NaN \/ p_out = NaN -> score p_in p_out ctx = NaN.
Proof.
  intros Hctx H. unfold score.
  destruct (Z.leb_spec ctx 0) as [Hle | _]; [lia |]. cbv zeta.
  assert (Hd : Qltb 0 (inject_Z (Z.min ctx CTX_CAP) / inject_Z BASE_CTX) = true).
  { apply Qltb_lt, denom_pos. unfold CTX_CAP. lia. }
  rewrite Hd. destruct H as [-> | ->]; [reflexivity |].
  destruct p_in; reflexivity.
Qed.

Section Rows.
Variable float_of_str : string -> option pyfloat.

(** X5.  The score of a normalized row is never negative, and it is [nan]
    when one of the two prices is.  A row whose two prices are zero is marked
    free and has score 0.  Its family is the one of its id, and it is no
    router. *)
Theorem normalized_rows_are_rankable (models : list model) (r : row) :
  In r (rows float_of_str models) ->
  ~ negative (r_score r)
  /\ (r_price_in r = NaN \/ r_price_out r = NaN -> r_score r = NaN)
  /\ (float_eq (r_price_in r) (Fin 0) -> float_eq (r_price_out r) (Fin 0) ->
      r_free r = true /\ float_eq (r_score r) (Fin 0))
  /\ r_family r = family (r_id r)
  /\ is_router (r_id r) (r_name r) = false.
Proof.
  intros Hr. apply rows_In in Hr as (m & _ & Hm).
  pose proof (normalize_Some float_of_str m r Hm)
    as (Hrouter & Hctx & Hc & _ & _ & Hin & Hout & Hid & Hname & Hfam & Hscore & Hfree).
  split; [| split; [| split; [| split]]].
  - rewrite Hscore. apply round_not_negative. apply score_not_negative; assumption.
  - intros H. rewrite Hscore, (score_nan _ _ _ Hctx H). reflexivity.
  - intros Hi Ho. split.
    + rewrite Hfree. unfold detect_free.
      apply feq_zero in Hi, Ho. rewrite Hi, Ho. apply orb_true_r.
    + apply float_eq_zero in Hi as (a & Ea & Ha), Ho as (b & Eb & Hb).
      rewrite Hscore, Ea, Eb. rewrite score_pos by exact Hctx.
      unfold float_eq. cbn [round compare_float]. apply Qeq_alt.
      apply round_Q_zero. unfold W_IN, W_OUT. rewrite Ha, Hb.
      unfold Qdiv. rewrite !Qmult_0_r, Qplus_0_l. apply Qmult_0_l.
  - rewrite Hfam, Hid. reflexivity.
  - rewrite Hid, Hname. exact Hrouter.
Qed.

End Rows.

Lemma normalized_rows_are_rankable_witness :
  Forall (fun r => ~ negative (r_score r) /\ r_family r = family (r_id r))
    (rows Samples.sample_float Samples.catalogue)
  /\ Forall (fun r => r_price_in r = NaN -> r_score r = NaN)
       (rows Samples.sample_float Samples.with_nan).
Proof.
  split; apply Forall_forall; intros r Hr.
  - destruct (normalized_rows_are_rankable Samples.sample_float Samples.catalogue r Hr)
      as (Hscore & _ & _ & Hfam & _).
    split; assumption.
  - destruct (normalized_rows_are_rankable Samples.sample_float Samples.with_nan r Hr)
      as (_ & Hnan & _).
    intros H. apply Hnan. left. exact H.
Defined.

(** ** The two global rankings *)

Lemma sorted_app_split {A : Type} (R : A -> A -> Prop) (l1 l2 : list A) :
  StronglySorted R (l1 ++ l2) ->
  StronglySorted R l1 /\ forall a b, In a l1 -> In b l2 -> R a b.
Proof.
  induction l1 as [| x l1 IH]; cbn; intros H.
  - split; [constructor | intros a b []].
  - inversion H as [| ? ? Hs Hx]; subst. destruct (IH Hs) as [Hs1 Hcross].
    rewrite Forall_forall in Hx. split.
    + constructor; [exact Hs1 |]. apply Forall_forall. intros y Hy.
      apply Hx. apply in_or_app. left. exact Hy.
    + intros a b [<- | Ha] Hb.
      * apply Hx. apply in_or_app. right. exact Hb.
      * apply Hcross; assumption.
Qed.

Lemma sorted_weaken {A : Type} (R R' : A -> A -> Prop) (l : list A) :
  (forall a b, R a b -> R' a b) -> StronglySorted R l -> StronglySorted R' l.
Proof.
  intros Himp. induction 1 as [| x l _ IH Hx]; constructor; [exact IH |].
  apply Forall_forall. intros y Hy. rewrite Forall_forall in Hx.
  apply Himp. apply Hx. exact Hy.
Qed.

(** The first [n] rows of a sorted frame: sorted themselves, and no row left
    out comes before a row kept. *)
Lemma head_of_sorted (cmp : row -> row -> comparison) (n : nat) (df : list row) :
  weak_order cmp ->
  length (head n (sort_values cmp df)) = Nat.min n (length df)
  /\ StronglySorted (le_by cmp) (head n (sort_values cmp df))
  /\ Permutation df (head n (sort_values cmp df) ++ skipn n (sort_values cmp df))
  /\ forall a b,
       In a (head n (sort_values cmp df)) -> In b (skipn n (sort_values cmp df)) ->
       leb cmp a b = true.
Proof.
  intros Hcmp. unfold head.
  pose proof (sort_values_sorted cmp Hcmp df) as Hs.
  rewrite <- (firstn_skipn n (sort_values cmp df)) in Hs.
  destruct (sorted_app_split _ _ _ Hs) as [H1 Hcross].
  split; [| split; [exact H1 | split; [| exact Hcross]]].
  - rewrite length_firstn. rewrite (Permutation_length (sort_values_perm cmp df)).
    reflexivity.
  - rewrite firstn_skipn. symmetry. apply sort_values_perm.
Qed.

(** X6.  The global top 10 holds the 10 best rows (all of them when there are
    fewer), best first, under the order score ascending, then price_in, then
    price_out, then context descending: every row left out compares no better
    than every row kept. *)
Theorem top10_are_the_ten_best (df : list row) :
  length (top10 df) = Nat.min 10 (length df)
  /\ StronglySorted (fun a b => leb by_score a b = true) (top10 df)
  /\ exists others,
       Permutation df (top10 df ++ others)
       /\ forall a b, In a (top10 df) -> In b others -> leb by_score a b = true.
Proof.
  destruct (head_of_sorted by_score 10 df weak_order_by_score) as (Hlen & Hs & Hp & Hc).
  split; [exact Hlen |]. split; [exact Hs |].
  exists (skipn 10 (sort_values by_score df)). split; [exact Hp | exact Hc].
Qed.

Lemma weak_order_by_context : weak_order by_context.
Proof.
  unfold by_context.
  apply (weak_order_lex (fun a b => CompOpp (r_context a ?= r_context b))).
  { apply (weak_order_opp (fun a b => r_context a ?= r_context b)).
    apply (weak_order_on r_context), weak_order_Z. }
  apply (weak_order_lex (fun a b => compare_float (r_price_in a) (r_price_in b))).
  { apply (weak_order_on r_price_in), weak_order_float. }
  apply (weak_order_on r_price_out), weak_order_float.
Qed.

Lemma by_context_le (a b : row) : leb by_context a b = true -> r_context b <= r_context a.
Proof.
  unfold leb, by_context.
  destruct (Z.compare_spec (r_context a) (r_context b)) as [He | Hlt | Hgt]; cbn.
  - intros _. lia.
  - discriminate.
  - intros _. lia.
Qed.

(** X7.  The free top 5 holds only rows marked free, at most five, by
    decreasing context; every free row left out has a context no larger than
    any row kept. *)
Theorem free5_are_the_largest_free_contexts (df : list row) :
  (forall r, In r (free5 df) -> In r df /\ r_free r = true)
  /\ length (free5 df) = Nat.min 5 (length (filter r_free df))
  /\ StronglySorted (fun a b => r_context b <= r_context a) (free5 df)
  /\ exists others,
       Permutation (filter r_free df) (free5 df ++ others)
       /\ forall a b, In a (free5 df) -> In b others -> r_context b <= r_context a.
Proof.
  destruct (head_of_sorted by_context 5 (filter r_free df) weak_order_by_context)
    as (Hlen & Hs & Hp & Hc).
  fold (free5 df) in Hlen, Hs, Hp, Hc.
  split; [| split; [exact Hlen | split]].
  - intros r Hr. apply filter_In.
    apply (Permutation_in r (Permutation_sym Hp)). apply in_or_app. left. exact Hr.
  - apply (sorted_weaken (le_by by_context)); [| exact Hs].
    intros a b. apply by_context_le.
  - exists (skipn 5 (sort_values by_context (filter r_free df))).
    split; [exact Hp |]. intros a b Ha Hb. apply by_context_le. apply Hc; assumption.
Qed.

(** ** The best-per-family sheet *)

(** X8.  On every frame the best-per-family sheet has exactly one row for
    each family that occurs in the frame and none for any other, and its rows
    are in the order of their scores, lowest first. *)
Theorem best_per_family_has_one_row_per_family_by_score (df : list row) :
  NoDup (map r_family (best_per_family df))
  /\ (forall k, In k (map r_family (best_per_family df))
                <-> exists r, In r df /\ r_family r = k)
  /\ StronglySorted (fun a b => float_le (r_score a) (r_score b)) (best_per_family df).
Proof.
  destruct (best_per_family_one_per_family df) as [Hnodup Hkeys].
  split; [exact Hnodup |]. split; [exact Hkeys | apply best_per_family_sorted].
Qed.

(** X9.  Each row of the sheet is built on a best row of its family: a row
    of the frame of that family that compares no worse than any other under
    (score, price_in, price_out, context descending).  It has that row's
    context, free flag and streaming text, and that row's id, name, prices
    and score wherever the best row's own entry is not null ([None] for the
    id and the name, [nan] for the prices and the score).  When the best row
    has no null in it, the sheet row is that very row.  An entry of the sheet
    row is null only when every row of the family has null in that column. *)
Theorem best_per_family_shows_a_best_row (df : list row) (r : row) :
  In r (best_per_family df) ->
  exists best,
    In best df
    /\ r_family best = r_family r
    /\ (forall y, In y df -> r_family y = r_family r -> leb by_score best y = true)
    /\ r_context r = r_context best
    /\ r_free r = r_free best
    /\ r_streaming r = r_streaming best
    /\ (r_id best <> None -> r_id r = r_id best)
    /\ (r_name best <> None -> r_name r = r_name best)
    /\ (r_price_in best <> NaN -> r_price_in r = r_price_in best)
    /\ (r_price_out best <> NaN -> r_price_out r = r_price_out best)
    /\ (r_score best <> NaN -> r_score r = r_score best)
    /\ (complete best -> r = best)
    /\ (forall y, In y df -> r_family y = r_family r ->
        (r_id r = None -> r_id y = None)
        /\ (r_name r = None -> r_name y = None)
        /\ (r_price_in r = NaN -> r_price_in y = NaN)
        /\ (r_price_out r = NaN -> r_price_out y = NaN)
        /\ (r_score r = NaN -> r_score y = NaN)).
Proof.
  intros Hr.
  destruct (best_per_family_row df r Hr) as (best & rest & Hg & Hfirst & Hleast).
  assert (Hin : In best (group (r_family r) df)).
  { apply (sort_values_In by_score). rewrite Hg. left. reflexivity. }
  apply filter_In in Hin as [Hin Hk]. apply String.eqb_eq in Hk.
  destruct (first_columns _ best rest r Hfirst)
    as (_ & Hc & Hfr & Hst & Ei & En & Epi & Epo & Es).
  exists best. split; [exact Hin |]. split; [exact Hk |]. split; [exact Hleast |].
  repeat (split; [assumption |]).
  split.
  - intros Hcomplete. apply (first_whole_row _ best rest r Hfirst Hk Hcomplete).
  - intros y Hy Hfam. apply (first_nulls _ _ r y Hfirst).
    rewrite <- Hg. apply (sort_values_In by_score).
    apply filter_In. split; [exact Hy | apply String.eqb_eq; exact Hfam].
Qed.

Lemma best_per_family_shows_a_best_row_witness :
  Forall (fun r => exists best,
              In best (rows Samples.sample_float Samples.catalogue)
              /\ r_family best = r_family r
              /\ r_context r = r_context best
              /\ r_free r = r_free best)
    (best_per_family (rows Samples.sample_float Samples.catalogue))
  /\ Forall (fun r => exists best,
                 In best (rows Samples.sample_float Samples.with_nan)
                 /\ r_family best = r_family r
                 /\ r_context r = r_context best
                 /\ (r_score best <> NaN -> r_score r = r_score best))
       (best_per_family (rows Samples.sample_float Samples.with_nan)).
Proof.
  split; apply Forall_forall; intros r Hr.
  - destruct (best_per_family_shows_a_best_row _ r Hr)
      as (best & Hin & Hfam & _ & Hc & Hfree & _).
    exists best. split; [exact Hin |]. split; [exact Hfam |]. split; assumption.
  - destruct (best_per_family_shows_a_best_row _ r Hr)
      as (best & Hin & Hfam & _ & Hc & _ & _ & _ & _ & _ & _ & Hscore & _).
    exists best. split; [exact Hin |]. split; [exact Hfam |]. split; assumption.
Defined.

End OpenRouterMore.

(** * More of npm-scan.py: arguments, extraction, the walks and the report *)

Module NpmScanMore.
Import PyStr NpmScan NpmScanSpec.
Local Open Scope list_scope.

(** ** The arguments *)

Definition is_path_arg (arg : string) : bool := negb (String.eqb arg "--json").

Lemma last_default {A : Type} (x : A) (l : list A) (d d' : A) :
  last (x :: l) d = last (x :: l) d'.
Proof.
  revert x. induction l as [| y l IH]; intros x; [reflexivity |].
  change (last (y :: l) d = last (y :: l) d'). apply IH.
Qed.

Lemma parse_args_general (args : list string) (path : string) (flag : bool) :
  parse_args args path flag
  = (last (filter is_path_arg args) path,
     flag || existsb (fun arg => String.eqb arg "--json") args).
Proof.
  revert path flag. induction args as [| arg args IH]; intros path flag; cbn.
  - rewrite orb_false_r. reflexivity.
  - unfold is_path_arg at 1. destruct (String.eqb arg "--json"); cbn.
    + rewrite IH. rewrite orb_true_r. reflexivity.
    + rewrite IH. f_equal.
      destruct (filter is_path_arg args) as [| a rest]; [reflexivity |].
      apply last_default.
Qed.

(** X10.  The structured mode is chosen exactly when "--json" is among the
    arguments, wherever it stands; the lockfile path is the last argument
    that is not "--json", and "./package-lock.json" when there is none. *)
Theorem parse_args_takes_the_last_path (args : list string) :
  fst (parse_args args "./package-lock.json" false)
  = last (filter is_path_arg args) "./package-lock.json"
  /\ (snd (parse_args args "./package-lock.json" false) = true <-> In "--json"%string args).
Proof.
  rewrite parse_args_general. cbn [fst snd orb]. split; [reflexivity |].
  rewrite existsb_exists. split.
  - intros (arg & Hin & Heq). apply String.eqb_eq in Heq. subst arg. exact Hin.
  - intros Hin. exists "--json"%string. split; [exact Hin | reflexivity].
Qed.

(** ** The scraping loop *)

Definition iocs_of_page (r : response) : list ioc :=
  match r with
  | Page text => map (fun m => {| package := fst m; version := snd m |}) (findall text)
  | Raised _ => []
  end.

Definition log_of_page (url : string) (r : response) : list printed :=
  match r with
  | Page _ => []
  | Raised e => [Line ("Erro ao acessar " ++ url ++ ": " ++ e)%string]
  end.

Lemma scrape_general (get : string -> response) (us : list string) (st : scraped) :
  iocs (scrape get us st) = iocs st ++ flat_map (fun url => iocs_of_page (get url)) us
  /\ log (scrape get us st) = log st ++ flat_map (fun url => log_of_page url (get url)) us.
Proof.
  revert st. induction us as [| url us IH]; intros st; cbn.
  - rewrite !app_nil_r. split; reflexivity.
  - destruct (get url) as [text | e]; cbn;
      match goal with
      | |- context [scrape get us ?st'] => destruct (IH st') as [-> ->]
      end; cbn; rewrite <- ?app_assoc; split; reflexivity.
Qed.

(** X11.  The loop gathers, in URL order, what the pattern finds on each page
    that loaded; a URL that fails contributes nothing but one error line and
    loses nothing gathered from the others; and [fetched_online] ends up true
    exactly when at least one URL loaded. *)
Theorem scrape_gathers_the_pages_that_load (get : string -> response) (us : list string) :
  iocs (scrape get us start) = flat_map (fun url => iocs_of_page (get url)) us
  /\ log (scrape get us start) = flat_map (fun url => log_of_page url (get url)) us
  /\ (fetched_online (scrape get us start) = true
      <-> exists url text, In url us /\ get url = Page text).
Proof.
  destruct (scrape_general get us start) as [Hi Hl].
  split; [exact Hi |]. split; [exact Hl |].
  rewrite scrape_fetched_online. cbn. split.
  - intros [H | H]; [discriminate | exact H].
  - intros H. right. exact H.
Qed.
(** ** What the pattern extracts *)

Fixpoint all_chars (p : ascii -> bool) (s : string) : bool :=
  match s with
  | EmptyString => true
  | String c s' => p c && all_chars p s'
  end.

(** [\d+]: a non-empty run of digits. *)
Definition is_number (d : string) : Prop :=
  d <> EmptyString /\ all_chars is_digit d = true.

(** [\d+\.\d+\.\d+] *)
Definition is_version (v : string) : Prop :=
  exists d1 d2 d3,
    v = (d1 ++ "." ++ d2 ++ "." ++ d3)%string
    /\ is_number d1 /\ is_number d2 /\ is_number d3.

Lemma string_app_assoc (a b c : string) : ((a ++ b) ++ c = a ++ (b ++ c))%string.
Proof. induction a as [| x a IH]; cbn; [reflexivity | rewrite IH; reflexivity]. Qed.

Lemma digits_split (s : string) :
  s = (fst (digits s) ++ snd (digits s))%string
  /\ all_chars is_digit (fst (digits s)) = true.
Proof.
  induction s as [| c s [IH1 IH2]]; cbn; [split; reflexivity |].
  destruct (is_digit c) eqn:Hc; [| split; reflexivity].
  destruct (digits s) as [d rest]; cbn in *.
  rewrite Hc, IH2. split; [congruence | reflexivity].
Qed.

Lemma digits_number (s d rest : string) (c : ascii) :
  digits s = (String c d, rest) -> is_number (String c d) /\ s = (String c d ++ rest)%string.
Proof.
  intros H. destruct (digits_split s) as [Hs Hd]. rewrite H in Hs, Hd. cbn [fst snd] in Hs, Hd.
  split; [split; [discriminate | exact Hd] | exact Hs].
Qed.

Lemma match_version_shape (s ver : string) :
  match_version s = Some ver -> is_version ver /\ exists rest, s = (ver ++ rest)%string.
Proof.
  unfold match_version.
  destruct (digits s) as [[| c1 d1] [| a1 s1]] eqn:H1; try discriminate.
  destruct (Ascii.eqb_spec a1 "."%char) as [-> | Hne];
    [| destruct a1 as [[] [] [] [] [] [] [] []]; try discriminate;
       exfalso; apply Hne; reflexivity].
  destruct (digits s1) as [[| c2 d2] [| a2 s2]] eqn:H2; try discriminate.
  destruct (Ascii.eqb_spec a2 "."%char) as [-> | Hne];
    [| destruct a2 as [[] [] [] [] [] [] [] []]; try discriminate;
       exfalso; apply Hne; reflexivity].
  destruct (digits s2) as [[| c3 d3] s3] eqn:H3; try discriminate.
  intros [= <-].
  apply digits_number in H1 as [N1 E1], H2 as [N2 E2], H3 as [N3 E3].
  split.
  - exists (String c1 d1), (String c2 d2), (String c3 d3).
    split; [reflexivity |]. split; [exact N1 |]. split; [exact N2 | exact N3].
  - exists s3. subst s s1 s2. cbn. f_equal.
    rewrite string_app_assoc. cbn. do 3 f_equal.
    rewrite string_app_assoc. reflexivity.
Qed.

Lemma match_at_shape (s name ver : string) :
  match_at s = Some (name, ver) ->
  name <> EmptyString /\ all_chars is_word name = true /\ is_version ver
  /\ exists rest, s = (name ++ ver ++ rest)%string.
Proof.
  revert name. induction s as [| c s IH]; intros name; cbn; [discriminate |].
  destruct (is_word c) eqn:Hc; [| discriminate].
  destruct (match_at s) as [[n v] |].
  - intros [= <- <-]. destruct (IH n eq_refl) as (_ & Hn & Hv & rest & ->).
    split; [discriminate |]. split; [cbn; rewrite Hc, Hn; reflexivity |].
    split; [exact Hv |]. exists rest. reflexivity.
  - destruct (match_version s) as [v |] eqn:Hv; [| discriminate].
    intros [= <- <-]. apply match_version_shape in Hv as (Hv & rest & ->).
    split; [discriminate |]. split; [cbn; rewrite Hc; reflexivity |].
    split; [exact Hv |]. exists rest. reflexivity.
Qed.

Lemma findall_shape (text name ver : string) :
  In (name, ver) (findall text) ->
  name <> EmptyString
  /\ all_chars is_word name = true
  /\ is_version ver
  /\ exists before after, text = (before ++ name ++ ver ++ after)%string.
Proof.
  unfold findall. generalize 0%nat as skip.
  induction text as [| c text IH]; intros skip; cbn [findall_from]; [intros [] |].
  assert (Hlater : In (name, ver) (findall_from 0 text) \/
                   (exists k, In (name, ver) (findall_from k text)) ->
                   name <> EmptyString /\ all_chars is_word name = true /\ is_version ver
                   /\ exists before after,
                        String c text = (before ++ name ++ ver ++ after)%string).
  { intros H. assert (H' : exists k, In (name, ver) (findall_from k text)).
    { destruct H as [H | H]; [exists 0%nat; exact H | exact H]. }
    destruct H' as [k Hk]. destruct (IH k Hk) as (Hn & Hw & Hv & b & a & ->).
    repeat split; try assumption. exists (String c b), a. reflexivity. }
  destruct skip as [| k].
  - destruct (match_at (String c text)) as [[n v] |] eqn:Hm.
    + intros [[= <- <-] | H].
      * destruct (match_at_shape _ _ _ Hm) as (Hn & Hw & Hv & rest & Hrest).
        repeat split; try assumption. exists EmptyString, rest. exact Hrest.
      * apply Hlater. right. eexists. exact H.
    + intros H. apply Hlater. left. exact H.
  - intros H. apply Hlater. right. exists k. exact H.
Qed.

(** X12.  Everything [findall] returns is really in the text: a non-empty
    name made of letters, digits, "_" and "-", directly followed by a version
    of three dot-separated numbers, with no separator between the two. *)
Theorem findall_returns_glued_name_versions (text name ver : string) :
  In (name, ver) (findall text) ->
  name <> EmptyString
  /\ all_chars is_word name = true
  /\ is_version ver
  /\ exists before after, text = (before ++ name ++ ver ++ after)%string.
Proof. apply findall_shape. Qed.

Lemma findall_returns_glued_name_versions_witness :
  is_version "5.6.1"
  /\ exists before after,
       Samples.advisory = (before ++ "chalk" ++ "5.6.1" ++ after)%string.
Proof.
  assert (H : In ("chalk"%string, "5.6.1"%string) (findall Samples.advisory)).
  { vm_compute. left. reflexivity. }
  destruct (findall_returns_glued_name_versions Samples.advisory "chalk" "5.6.1" H)
    as (_ & _ & Hv & Hsub).
  split; assumption.
Defined.
(** ** Deduplication *)

(** The dict key of an IOC. *)
Definition key (i : ioc) : string := (package i ++ "@" ++ version i)%string.

Lemma dict_set_keys {V : Type} (k : string) (v : V) (d : list (string * V)) (x : string) :
  In x (map fst (dict_set k v d)) <-> x = k \/ In x (map fst d).
Proof.
  induction d as [| [k' v'] d IH]; cbn.
  - intuition congruence.
  - destruct (String.eqb_spec k' k) as [-> | Hne]; cbn.
    + intuition congruence.
    + rewrite IH. intuition congruence.
Qed.

Lemma dict_set_NoDup {V : Type} (k : string) (v : V) (d : list (string * V)) :
  NoDup (map fst d) -> NoDup (map fst (dict_set k v d)).
Proof.
  induction d as [| [k' v'] d IH]; cbn; intros Hd.
  - repeat constructor. intros [].
  - inversion Hd as [| ? ? Hnot Hrest]; subst.
    destruct (String.eqb_spec k' k) as [-> | Hne]; cbn.
    + constructor; assumption.
    + constructor; [| apply IH; exact Hrest].
      rewrite dict_set_keys. intros [-> | H]; [apply Hne; reflexivity | exact (Hnot H)].
Qed.

(** The dict after the comprehension: its keys are distinct, each entry sits
    under its own key, and every IOC seen has its key in it. *)
Lemma unique_iocs_dict (l : list ioc) :
  NoDup (map fst (unique_iocs l))
  /\ (forall k i, In (k, i) (unique_iocs l) -> k = key i)
  /\ (forall i, In i l -> In (key i) (map fst (unique_iocs l))).
Proof.
  unfold unique_iocs.
  assert (H : forall d d',
             NoDup (map fst d) -> (forall k i, In (k, i) d -> k = key i) ->
             d' = fold_left (fun d i => dict_set (package i ++ "@" ++ version i)%string i d) l d ->
             NoDup (map fst d')
             /\ (forall k i, In (k, i) d' -> k = key i)
             /\ (forall k, In k (map fst d) -> In k (map fst d'))
             /\ (forall i, In i l -> In (key i) (map fst d'))).
  { induction l as [| x l IH]; intros d d' Hnd Hkey ->; cbn.
    - repeat split; auto. intros i Hi. destruct Hi.
    - assert (Hkey' : forall k i, In (k, i) (dict_set (key x) x d) -> k = key i).
      { intros k i Hin. apply dict_set_In in Hin as [[= -> ->] | Hin];
          [reflexivity | apply Hkey; exact Hin]. }
      pose proof (IH (dict_set (key x) x d) _ (dict_set_NoDup _ _ _ Hnd) Hkey' eq_refl)
        as (H1 & H2 & H3 & H4).
      repeat split; try assumption.
      + intros k Hk. apply H3. apply dict_set_keys. right. exact Hk.
      + intros i [<- | Hi]; [| apply H4; exact Hi].
        apply H3. apply dict_set_keys. left. reflexivity. }
  destruct (H [] _ (NoDup_nil _) (fun k i (Hin : In (k, i) []) => match Hin with end) eq_refl)
    as (H1 & H2 & _ & H4).
  repeat split; assumption.
Qed.

Lemma iocs_list_NoDup (l : list ioc) : NoDup (iocs_list l).
Proof.
  destruct (unique_iocs_dict l) as (Hnd & Hkey & _). unfold iocs_list.
  induction (unique_iocs l) as [| [k i] d IH]; cbn; [constructor |].
  inversion Hnd as [| ? ? Hnot Hrest]; subst.
  constructor.
  - intros Hin. apply in_map_iff in Hin as ([k' i'] & Heq & Hin). cbn in Heq. subst i'.
    apply Hnot. apply in_map_iff. exists (k', i). split; [| exact Hin]. cbn.
    rewrite (Hkey k i (or_introl eq_refl)). apply (Hkey k' i). right. exact Hin.
  - apply IH; [exact Hrest |]. intros k' i' Hin. apply Hkey. right. exact Hin.
Qed.

Lemma iocs_list_covers (l : list ioc) (i : ioc) :
  In i l -> exists j, In j (iocs_list l) /\ key j = key i.
Proof.
  intros Hi. destruct (unique_iocs_dict l) as (_ & Hkey & Hall).
  specialize (Hall i Hi). apply in_map_iff in Hall as ([k j] & Hk & Hin). cbn in Hk. subst k.
  exists j. split.
  - unfold iocs_list. apply in_map_iff. exists (key i, j). split; [reflexivity | exact Hin].
  - symmetry. apply (Hkey _ _ Hin).
Qed.

(** X13.  The deduplicated list never holds an IOC twice, holds only IOCs of
    the raw list, and for every IOC of the raw list holds one with the same
    "package@version" key. *)
Theorem iocs_list_is_the_raw_list_without_repeats (l : list ioc) :
  NoDup (iocs_list l)
  /\ (forall i, In i (iocs_list l) -> In i l)
  /\ (forall i, In i l ->
                exists j, In j (iocs_list l)
                          /\ (package j ++ "@" ++ version j
                              = package i ++ "@" ++ version i)%string).
Proof.
  split; [apply iocs_list_NoDup |]. split; [apply iocs_list_In | apply iocs_list_covers].
Qed.

(** Names of word characters hold no "@", so the key tells name and version
    apart. *)
Lemma key_injective (n1 v1 n2 v2 : string) :
  all_chars is_word n1 = true -> all_chars is_word n2 = true ->
  (n1 ++ "@" ++ v1 = n2 ++ "@" ++ v2)%string -> n1 = n2 /\ v1 = v2.
Proof.
  revert n2. induction n1 as [| c n1 IH]; intros [| c2 n2]; cbn; intros H1 H2 Heq.
  - injection Heq as ->. split; reflexivity.
  - injection Heq as <- _. discriminate H2.
  - injection Heq as -> _. discriminate H1.
  - injection Heq as -> Heq.
    apply andb_true_iff in H1 as [_ H1], H2 as [_ H2].
    destruct (IH n2 H1 H2 Heq) as [-> ->]. split; reflexivity.
Qed.

Lemma scraped_names (get : string -> response) (us : list string) (i : ioc) :
  In i (iocs (scrape get us start)) -> all_chars is_word (package i) = true.
Proof.
  destruct (scrape_general get us start) as [-> _]. cbn [start iocs app].
  intros Hin. apply in_flat_map in Hin as (url & _ & Hin).
  destruct (get url) as [text | e]; [| destruct Hin].
  cbn in Hin. apply in_map_iff in Hin as ([n v] & <- & Hin). cbn.
  apply findall_shape in Hin. apply Hin.
Qed.

(** X14.  For what the pattern extracts, deduplication loses nothing: the
    deduplicated list has exactly the elements of the raw list, each once. *)
Theorem scraped_iocs_keep_their_elements (get : string -> response) (us : list string) :
  let raw := iocs (scrape get us start) in
  NoDup (iocs_list raw) /\ forall i, In i (iocs_list raw) <-> In i raw.
Proof.
  cbv zeta. split; [apply iocs_list_NoDup |].
  intros i. split; [apply iocs_list_In |].
  intros Hi. destruct (iocs_list_covers _ i Hi) as (j & Hj & Hkey).
  assert (Hji : j = i).
  { unfold key in Hkey.
    apply key_injective in Hkey as [Hp Hv].
    - destruct j, i. cbn in *. congruence.
    - apply (scraped_names get us). apply iocs_list_In. exact Hj.
    - apply (scraped_names get us). exact Hi. }
  rewrite <- Hji. exact Hj.
Qed.
(** ** The walks report nothing that is not in the lockfile *)

Lemma check_sound (listed : list ioc) (name : string) (ver : json) (found : list ioc) (i : ioc) :
  In i (check listed name ver found) ->
  In i found \/ (In i listed /\ package i = name /\ ver = JStr (version i)).
Proof.
  unfold check. destruct (truthy ver); [| left; assumption].
  intros H. apply in_app_or in H as [H | H]; [left; exact H | right].
  apply filter_In in H as [Hin H]. apply andb_true_iff in H as [Hp Hv].
  apply String.eqb_eq in Hp. destruct ver; try discriminate. cbn in Hv.
  apply String.eqb_eq in Hv. subst. repeat split. exact Hin.
Qed.

(** [i] is the IOC of an entry of [deps]: some entry, at some depth, has its
    name and its version. *)
Definition matches_entry (deps : json) (i : ioc) : Prop :=
  exists name fields,
    entry_in deps name (JObj fields)
    /\ package i = name /\ get "version" fields = JStr (version i).

Lemma extract_from_v1_sound (listed : list ioc) (deps : json) :
  forall found found',
    extract_from_v1 listed deps found = Some found' ->
    forall i, In i found' -> In i found \/ (In i listed /\ matches_entry deps i).
Proof.
  induction deps as [j Hj | d IH] using deps_induction; intros found found'.
  - destruct j; try discriminate. exfalso. apply (Hj members). reflexivity.
  - rewrite extract_from_v1_obj.
    apply (for_items_invariant
             (fun st => forall i, In i st ->
                                  In i found \/ (In i listed /\ matches_entry (JObj d) i)));
      [| intros i Hi; left; exact Hi].
    intros name info st st' Hin Hst.
    destruct info as [| | | | | fields]; try discriminate.
    cbv zeta. rewrite (member_map "dependencies").
    assert (Hcheck : forall i, In i (check listed name (get "version" fields) st) ->
                               In i found \/ (In i listed /\ matches_entry (JObj d) i)).
    { intros i Hi. apply check_sound in Hi as [Hi | (Hl & Hp & Hv)]; [apply Hst; exact Hi |].
      right. split; [exact Hl |]. exists name, fields.
      split; [apply entry_here; exact Hin | split; assumption]. }
    destruct (member "dependencies" (fun v => v) fields) as [sub |] eqn:Hsub; cbn [option_map].
    + intros Hwalk i Hi.
      destruct (IH name fields "dependencies" sub Hin (member_In _ _ _ Hsub) _ _ Hwalk i Hi)
        as [Hc | (Hl & n & f & He & Hp & Hv)]; [apply Hcheck; exact Hc |].
      right. split; [exact Hl |]. exists n, f.
      split; [apply (entry_below d name fields sub); assumption | split; assumption].
    + intros [= <-]. exact Hcheck.
Qed.

(** X15.  The recursive walk reports nothing that is not there: whenever it
    returns, every finding is an IOC of the list whose package and version
    are the name and the version of an entry of the dependency map, at some
    depth. *)
Theorem v1_walk_reports_only_entries (listed : list ioc) (deps : json) (found : list ioc) :
  extract_from_v1 listed deps [] = Some found ->
  forall i, In i found ->
    In i listed
    /\ exists name fields,
         entry_in deps name (JObj fields)
         /\ package i = name /\ get "version" fields = JStr (version i).
Proof.
  intros Hwalk i Hi.
  destruct (extract_from_v1_sound listed deps [] found Hwalk i Hi) as [[] | H]. exact H.
Qed.

Lemma v1_walk_reports_only_entries_witness :
  Forall (fun i => In i [Samples.chalk; Samples.debug]
                   /\ exists name fields,
                        entry_in Samples.deep_deps name (JObj fields)
                        /\ package i = name /\ get "version" fields = JStr (version i))
    [Samples.chalk].
Proof.
  apply Forall_forall. intros i Hi.
  apply (v1_walk_reports_only_entries [Samples.chalk; Samples.debug] Samples.deep_deps
           [Samples.chalk] eq_refl i Hi).
Defined.

(** ** The flat walk *)

Lemma split_no_sep (sep : ascii) (x : string) :
  contains (String sep EmptyString) x = false -> split sep x = [x].
Proof.
  induction x as [| c x IH]; cbn; [reflexivity |].
  destruct (Ascii.eqb_spec sep c) as [-> | Hne]; cbn; [discriminate |].
  intros H. destruct (Ascii.eqb_spec c sep) as [-> | _]; [contradiction |].
  rewrite (IH H). reflexivity.
Qed.

Lemma split_app_sep (sep : ascii) (x rest : string) :
  contains (String sep EmptyString) x = false ->
  split sep (x ++ String sep rest)%string = x :: split sep rest.
Proof.
  induction x as [| c x IH]; cbn.
  - intros _. rewrite Ascii.eqb_refl. reflexivity.
  - destruct (Ascii.eqb_spec sep c) as [-> | Hne]; cbn; [discriminate |].
    intros H. destruct (Ascii.eqb_spec c sep) as [-> | _]; [contradiction |].
    rewrite (IH H). reflexivity.
Qed.

Lemma extract_from_v2_obj (listed : list ioc) (d : list (string * json)) (found : list ioc) :
  extract_from_v2 listed (JObj d) found
  = for_items
      (fun path info found =>
         if startswith "node_modules/" path then
           let name := nth 1 (split "/" path) EmptyString in
           match info with
           | JObj fields => Some (check listed name (get "version" fields) found)
           | _ => None
           end
         else Some found) d found.
Proof. reflexivity. Qed.

Lemma extract_from_v2_complete (listed : list ioc) (d : list (string * json)) :
  forall found found',
    extract_from_v2 listed (JObj d) found = Some found' ->
    forall path fields i,
      In (path, JObj fields) d -> startswith "node_modules/" path = true ->
      In i listed -> package i = nth 1 (split "/" path) EmptyString ->
      version i <> EmptyString -> get "version" fields = JStr (version i) ->
      In i found'.
Proof.
  induction d as [| [p0 info0] d IH]; intros found found' Hwalk path fields i Hin Hpre Hl Hp Hv Hg.
  - destruct Hin.
  - rewrite extract_from_v2_obj, for_items_cons in Hwalk.
    destruct Hin as [[= -> ->] | Hin].
    + rewrite Hpre in Hwalk. cbv zeta in Hwalk. rewrite Hg in Hwalk.
      change (extract_from_v2 listed (JObj d)
                (check listed (nth 1 (split "/" path) EmptyString) (JStr (version i)) found)
              = Some found') in Hwalk.
      apply extract_from_v2_extends in Hwalk.
      apply (extends_In listed _ found' i Hwalk).
      apply check_hit; assumption.
    + destruct (if startswith "node_modules/" p0 then _ else _) as [st |] eqn:Hb;
        [| discriminate].
      apply (IH st found' Hwalk path fields i); assumption.
Qed.

Lemma extract_from_v2_sound (listed : list ioc) (d : list (string * json)) :
  forall found found',
    extract_from_v2 listed (JObj d) found = Some found' ->
    forall i, In i found' ->
      In i found
      \/ (In i listed
          /\ exists path fields,
               In (path, JObj fields) d /\ startswith "node_modules/" path = true
               /\ package i = nth 1 (split "/" path) EmptyString
               /\ get "version" fields = JStr (version i)).
Proof.
  intros found found'. rewrite extract_from_v2_obj.
  apply (for_items_invariant
           (fun st => forall i, In i st ->
              In i found
              \/ (In i listed
                  /\ exists path fields,
                       In (path, JObj fields) d /\ startswith "node_modules/" path = true
                       /\ package i = nth 1 (split "/" path) EmptyString
                       /\ get "version" fields = JStr (version i))));
    [| intros i Hi; left; exact Hi].
  intros path info st st' Hin Hst.
  destruct (startswith "node_modules/" path) eqn:Hpre; [| intros [= <-]; exact Hst].
  destruct info as [| | | | | fields]; try discriminate.
  intros [= <-] i Hi. apply check_sound in Hi as [Hi | (Hl & Hp & Hv)]; [apply Hst; exact Hi |].
  right. split; [exact Hl |]. exists path, fields. repeat split; assumption.
Qed.

(** X16.  The flat walk compares each entry under "node_modules/" by the path
    segment that follows that prefix, up to the next "/": whenever it
    returns, an IOC of the list is among the findings if and only if some
    such entry has that segment as the IOC's package and the IOC's version as
    its version (versions being non-empty).  For "node_modules/x" and for
    "node_modules/x/..." alike the segment is "x". *)
Theorem v2_walk_matches_by_first_segment (listed : list ioc) (d : list (string * json))
  (found : list ioc) :
  extract_from_v2 listed (JObj d) [] = Some found ->
  (forall i, version i <> EmptyString ->
     (In i found <->
      In i listed
      /\ exists path fields,
           In (path, JObj fields) d /\ startswith "node_modules/" path = true
           /\ package i = nth 1 (split "/" path) EmptyString
           /\ get "version" fields = JStr (version i)))
  /\ (forall x rest,
        contains "/" x = false ->
        nth 1 (split "/" ("node_modules/" ++ x)%string) EmptyString = x
        /\ nth 1 (split "/" ("node_modules/" ++ x ++ "/" ++ rest)%string) EmptyString = x).
Proof.
  intros Hwalk. split.
  - intros i Hv. split.
    + intros Hi. destruct (extract_from_v2_sound listed d [] found Hwalk i Hi) as [[] | H].
      exact H.
    + intros (Hl & path & fields & Hin & Hpre & Hp & Hg).
      apply (extract_from_v2_complete listed d [] found Hwalk path fields i); assumption.
  - intros x rest Hx. split.
    + change (nth 1 ("node_modules"%string :: split "/" x) EmptyString = x).
      rewrite (split_no_sep "/" x Hx). reflexivity.
    + change (nth 1 ("node_modules"%string :: split "/" (x ++ String "/" rest)%string)
                EmptyString = x).
      rewrite (split_app_sep "/" x rest Hx). reflexivity.
Qed.

Lemma v2_walk_matches_by_first_segment_witness :
  In Samples.chalk [Samples.chalk]
  /\ nth 1 (split "/" ("node_modules/" ++ "a" ++ "/" ++ "node_modules/chalk")%string)
       EmptyString = "a"%string.
Proof.
  destruct (v2_walk_matches_by_first_segment [Samples.chalk; Samples.debug]
              [("", JObj [("name", JStr "app")]);
               ("node_modules/chalk", JObj [("version", JStr "5.6.1")]);
               ("node_modules/ms", JObj [("version", JStr "2.1.3")])]
              [Samples.chalk] eq_refl) as [Hiff Hseg].
  split.
  - apply (Hiff Samples.chalk); [discriminate |].
    split; [left; reflexivity |].
    exists "node_modules/chalk"%string, [("version", JStr "5.6.1")].
    repeat split. right. left. reflexivity.
  - apply (Hseg "a"%string "node_modules/chalk"%string). reflexivity.
Defined.
(** ** Which lockfiles make the script fail *)

Lemma extract_from_v1_wf (listed : list ioc) (deps : json) :
  forall found found',
    extract_from_v1 listed deps found = Some found' -> wf_v1 deps = true.
Proof.
  induction deps as [j Hj | d Hsub] using deps_induction; intros found found'.
  - destruct j; try discriminate. exfalso. apply (Hj members). reflexivity.
  - revert found found'. induction d as [| [n0 info0] d IHd]; intros found found' Hwalk.
    + reflexivity.
    + rewrite extract_from_v1_obj, for_items_cons in Hwalk.
      destruct info0 as [| | | | | f0]; try discriminate.
      cbv zeta in Hwalk. rewrite (member_map "dependencies") in Hwalk.
      rewrite wf_v1_obj. cbn [forallb]. rewrite <- wf_v1_obj.
      rewrite (member_map "dependencies" wf_v1).
      assert (IHtail : forall f f', extract_from_v1 listed (JObj d) f = Some f' ->
                                    wf_v1 (JObj d) = true).
      { apply (IHd (fun nm fs k sub H => Hsub nm fs k sub (or_intror H))). }
      destruct (member "dependencies" (fun v => v) f0) as [sub |] eqn:Hm;
        cbn [option_map] in Hwalk |- *.
      * destruct (extract_from_v1 listed sub _) as [found2 |] eqn:Hs; [| discriminate].
        rewrite (Hsub n0 f0 "dependencies" sub (or_introl eq_refl) (member_In _ _ _ Hm)
                   _ _ Hs).
        apply (IHtail _ _ Hwalk).
      * apply (IHtail _ _ Hwalk).
Qed.

Lemma extract_from_v2_wf (listed : list ioc) (packages_dict : json) (found found' : list ioc) :
  extract_from_v2 listed packages_dict found = Some found' -> wf_v2 packages_dict = true.
Proof.
  destruct packages_dict as [| | | | | d]; try discriminate.
  revert found. induction d as [| [path info] d IH]; intros found; [reflexivity |].
  rewrite extract_from_v2_obj, for_items_cons. cbn [wf_v2 forallb].
  destruct (startswith "node_modules/" path).
  - destruct info; try discriminate. cbv zeta. intros H. apply (IH _ H).
  - intros H. apply (IH _ H).
Qed.

(** X17.  On a lockfile that is an object the matcher raises exactly when the
    member it walks is ill-formed (an entry that is no object, or a nested
    "dependencies" that is none), and whether it raises, on any document,
    does not depend on the IOC list: an empty list does not make a malformed
    lockfile pass. *)
Theorem scan_raises_exactly_on_ill_formed_lockfiles (listed : list ioc)
  (d : list (string * json)) :
  ((exists found, scan listed (JObj d) = Some found) <-> wf_lock (JObj d) = true)
  /\ (forall listed' lock_data,
        scan listed lock_data = None <-> scan listed' lock_data = None).
Proof.
  assert (Hobj : forall l d0, (exists found, scan l (JObj d0) = Some found)
                              <-> wf_lock (JObj d0) = true).
  { intros l d0. split; [| apply scan_total].
    intros [found Hscan]. rewrite scan_obj in Hscan. cbn [wf_lock]. unfold item in Hscan.
    rewrite (member_map "packages" wf_v2), (member_map "dependencies" wf_v1).
    destruct (member "packages" (fun v => v) d0) as [p |]; cbn [option_map].
    - apply (extract_from_v2_wf _ _ _ _ Hscan).
    - destruct (member "dependencies" (fun v => v) d0) as [deps |]; cbn [option_map].
      + apply (extract_from_v1_wf _ _ _ _ Hscan).
      + reflexivity. }
  split; [apply Hobj |].
  intros listed' lock_data.
  destruct lock_data as [| | | s | items | d0]; try (split; reflexivity).
  - cbn [scan]. destruct (contains "packages" s), (contains "dependencies" s);
      split; intros H; try reflexivity; discriminate.
  - cbn [scan].
    destruct (existsb (eq_str "packages") items), (existsb (eq_str "dependencies") items);
      split; intros H; try reflexivity; discriminate.
  - assert (Hnone : forall l, scan l (JObj d0) = None <-> wf_lock (JObj d0) <> true).
    { intros l. rewrite <- (Hobj l d0). split.
      - intros H [found Hf]. congruence.
      - intros H. destruct (scan l (JObj d0)) as [found |]; [| reflexivity].
        exfalso. apply H. exists found. reflexivity. }
    rewrite !Hnone. reflexivity.
Qed.

(** ** Findings accumulate *)

Lemma check_app (listed : list ioc) (name : string) (ver : json) (found : list ioc) :
  check listed name ver found = found ++ check listed name ver [].
Proof.
  unfold check. destruct (truthy ver); [reflexivity | symmetry; apply app_nil_r].
Qed.

Lemma option_map_app {A : Type} (a b : list A) (o : option (list A)) :
  option_map (app a) (option_map (app b) o) = option_map (app (a ++ b)) o.
Proof. destruct o; cbn; [rewrite app_assoc |]; reflexivity. Qed.

Lemma member_item {T : Type} (k : string) (f : json -> T) (d : list (string * json)) :
  member k f d = option_map f (item k d).
Proof. apply member_map. Qed.

Lemma item_In (k : string) (d : list (string * json)) (v : json) :
  item k d = Some v -> In (k, v) d.
Proof. apply member_In. Qed.

Lemma for_items_app {A : Type} (body : string -> json -> list A -> option (list A))
  (d : list (string * json)) :
  (forall k v st, In (k, v) d -> body k v st = option_map (app st) (body k v [])) ->
  forall st, for_items body d st = option_map (app st) (for_items body d []).
Proof.
  induction d as [| [k v] d IH]; intros Hbody st.
  - cbn. rewrite app_nil_r. reflexivity.
  - rewrite !for_items_cons. rewrite (Hbody k v st (or_introl eq_refl)).
    assert (IH' : forall st', for_items body d st'
                              = option_map (app st') (for_items body d [])).
    { apply IH. intros k' v' st' Hin. apply Hbody. right. exact Hin. }
    destruct (body k v []) as [e |]; cbn [option_map]; [| reflexivity].
    rewrite (IH' (st ++ e)), (IH' e). rewrite option_map_app. reflexivity.
Qed.

Lemma extract_from_v1_app (listed : list ioc) (deps : json) :
  forall found,
    extract_from_v1 listed deps found
    = option_map (app found) (extract_from_v1 listed deps []).
Proof.
  induction deps as [j Hj | d Hsub] using deps_induction; intros found.
  - destruct j; try reflexivity. exfalso. apply (Hj members). reflexivity.
  - rewrite (extract_from_v1_obj listed d found), (extract_from_v1_obj listed d []).
    apply for_items_app. intros name info st Hin.
    destruct info as [| | | | | fields]; try reflexivity.
    cbv zeta. rewrite !member_item.
    rewrite (check_app listed name (get "version" fields) st).
    set (h := check listed name (get "version" fields) []).
    destruct (item "dependencies" fields) as [sub |] eqn:Hm; cbn [option_map];
      [| reflexivity].
    pose proof (Hsub name fields "dependencies" sub Hin (item_In _ _ _ Hm)) as Hq.
    rewrite (Hq (st ++ h)), (Hq h). rewrite option_map_app. reflexivity.
Qed.

Lemma extract_from_v2_app (listed : list ioc) (packages_dict : json) (found : list ioc) :
  extract_from_v2 listed packages_dict found
  = option_map (app found) (extract_from_v2 listed packages_dict []).
Proof.
  destruct packages_dict as [| | | | | d]; try reflexivity.
  rewrite (extract_from_v2_obj listed d found), (extract_from_v2_obj listed d []).
  apply for_items_app. intros path info st _.
  destruct (startswith "node_modules/" path); [| cbn; rewrite app_nil_r; reflexivity].
  destruct info as [| | | | | fields]; try reflexivity.
  cbv zeta. rewrite (check_app listed _ (get "version" fields) st). reflexivity.
Qed.

(** X18.  Both walks only ever append: started with findings already made,
    a walk returns those findings, untouched and in place, followed by exactly
    what it would have found starting from none (and raises in the same
    cases). *)
Theorem walks_only_append (listed : list ioc) (doc : json) (found : list ioc) :
  extract_from_v1 listed doc found
  = option_map (app found) (extract_from_v1 listed doc [])
  /\ extract_from_v2 listed doc found
     = option_map (app found) (extract_from_v2 listed doc []).
Proof. split; [apply extract_from_v1_app | apply extract_from_v2_app]. Qed.
(** ** The report and the ways the script ends *)

Lemma status_of_clean (found : list ioc) : status_of found = "clean"%string <-> found = [].
Proof. destruct found; cbn; split; congruence. Qed.

Lemma status_of_compromised (found : list ioc) :
  status_of found = "compromised"%string <-> found <> [].
Proof. destruct found; cbn; split; congruence. Qed.

Lemma main_prints_document (w : world) (r : report) :
  In (Json r) (stdout_of (main w)) ->
  let path := fst (parse_args (argv w) "./package-lock.json" false) in
  let s := scrape (fetch w) urls start in
  isfile w path = true
  /\ snd (parse_args (argv w) "./package-lock.json" false) = true
  /\ exists lock_data found,
       load w path = Some lock_data
       /\ scan (iocs_list (iocs s)) lock_data = Some found
       /\ r = {| scanned_lockfile := realpath w path;
                 scanned_at_utc := utcnow w;
                 status := status_of found;
                 fetched_from_internet := fetched_online s;
                 findings := found;
                 iocs_source := iocs_list (iocs s);
                 remediation_steps := steps |}.
Proof.
  rewrite main_cases. cbv zeta.
  set (s := scrape (fetch w) urls start).
  assert (Hlog : Forall is_line (log s)) by (apply scrape_log; constructor).
  destruct (isfile w _); cbn [negb stdout_of].
  - destruct (load w _) as [lock_data |];
      [| intros H; exfalso; exact (lines_hold_no_document _ _ Hlog H)].
    destruct (scan _ lock_data) as [found |] eqn:Hscan;
      [| intros H; exfalso; exact (lines_hold_no_document _ _ Hlog H)].
    cbn [stdout_of]. intros H. apply in_app_or in H as [H | H];
      [exfalso; exact (lines_hold_no_document _ _ Hlog H) |].
    pose proof (render_document _ _ _ _ _ _ _ H) as (Hjson & _).
    rewrite Hjson in H |- *. cbn in H. destruct H as [[= <-] | []].
    split; [reflexivity |]. split; [reflexivity |].
    exists lock_data, found. repeat split. exact Hscan.
  - intros H. apply in_app_or in H as [H | [[=] | []]].
    exfalso. exact (lines_hold_no_document _ _ Hlog H).
Qed.

(** X19.  A printed document is consistent with the run: the script was
    called with "--json" and ends with status 0; the document names the
    resolved lockfile and carries the four remediation steps; its status is
    "clean" exactly when it has no findings and "compromised" exactly when it
    has some; its fetch flag is true exactly when an advisory page loaded;
    and its IOC list holds no IOC twice. *)
Theorem printed_document_is_consistent (w : world) (r : report) :
  In (Json r) (stdout_of (main w)) ->
  exit_status (main w) = 0
  /\ In "--json"%string (argv w)
  /\ scanned_lockfile r = realpath w (fst (parse_args (argv w) "./package-lock.json" false))
  /\ length (remediation_steps r) = 4%nat
  /\ (status r = "clean"%string <-> findings r = [])
  /\ (status r = "compromised"%string <-> findings r <> [])
  /\ (fetched_from_internet r = true
      <-> exists url text, In url urls /\ fetch w url = Page text)
  /\ NoDup (iocs_source r).
Proof.
  intros Hr.
  pose proof (main_prints_document w r Hr) as (Hfile & Hjson & lock_data & found & Hload & Hscan & ->).
  cbn [scanned_lockfile remediation_steps status findings fetched_from_internet iocs_source].
  split.
  { rewrite main_cases. cbv zeta. rewrite Hfile, Hload, Hscan. reflexivity. }
  split.
  { rewrite parse_args_general in Hjson. cbn [snd orb] in Hjson.
    apply existsb_exists in Hjson as (arg & Hin & Heq).
    apply String.eqb_eq in Heq. subst arg. exact Hin. }
  split; [reflexivity |]. split; [reflexivity |].
  split; [apply status_of_clean |]. split; [apply status_of_compromised |].
  split; [| apply iocs_list_NoDup].
  rewrite scrape_fetched_online. cbn. split.
  - intros [H | H]; [discriminate | exact H].
  - intros H. right. exact H.
Qed.

Lemma printed_document_is_consistent_witness :
  exit_status (main Samples.online_v1) = 0
  /\ In "--json"%string (argv Samples.online_v1)
  /\ (status Samples.online_v1_report = "compromised"%string
      <-> findings Samples.online_v1_report <> [])
  /\ NoDup (iocs_source Samples.online_v1_report).
Proof.
  assert (Hr : In (Json Samples.online_v1_report) (stdout_of (main Samples.online_v1))).
  { vm_compute. left. reflexivity. }
  destruct (printed_document_is_consistent Samples.online_v1 Samples.online_v1_report Hr)
    as (Hexit & Hflag & _ & _ & _ & Hcomp & _ & Hnodup).
  split; [exact Hexit |]. split; [exact Hflag |]. split; [exact Hcomp | exact Hnodup].
Defined.

(** X20.  The script ends in one of three ways.  It ends with status 1, on an
    uncaught exception, exactly when the lockfile is there but cannot be
    loaded or makes the matcher raise, and then it has printed nothing but
    the error lines of the scraping.  In every case those error lines come
    first, one per URL that failed; and without "--json" no document is
    printed. *)
Theorem main_ends_in_one_of_three_ways (w : world) :
  let path := fst (parse_args (argv w) "./package-lock.json" false) in
  let s := scrape (fetch w) urls start in
  (exit_status (main w) = 0 \/ exit_status (main w) = 1 \/ exit_status (main w) = 2)
  /\ (exit_status (main w) = 1 <->
      isfile w path = true
      /\ (load w path = None
          \/ exists lock_data,
               load w path = Some lock_data
               /\ scan (iocs_list (iocs s)) lock_data = None))
  /\ (exit_status (main w) = 1 -> main w = Traceback (log s))
  /\ (exists rest, stdout_of (main w) = log s ++ rest)
  /\ (forall r, In (Json r) (stdout_of (main w)) -> In "--json"%string (argv w)).
Proof.
  cbv zeta. split; [| split; [| split; [| split]]].
  - rewrite main_cases. cbv zeta.
    destruct (isfile w _); cbn [negb]; [| right; right; reflexivity].
    destruct (load w _) as [lock_data |]; [| right; left; reflexivity].
    destruct (scan _ lock_data); [left | right; left]; reflexivity.
  - rewrite main_cases. cbv zeta.
    destruct (isfile w _); cbn [negb].
    + destruct (load w _) as [lock_data |].
      * destruct (scan _ lock_data) eqn:Hscan; cbn [exit_status]; split.
        -- discriminate.
        -- intros (_ & [H | (doc & [= <-] & H)]); congruence.
        -- intros _. split; [reflexivity |]. right. exists lock_data. split; [reflexivity | exact Hscan].
        -- reflexivity.
      * cbn [exit_status]. split; [| reflexivity].
        intros _. split; [reflexivity | left; reflexivity].
    + cbn [exit_status]. split; [discriminate | intros [H _]; discriminate].
  - rewrite main_cases. cbv zeta.
    destruct (isfile w _); cbn [negb]; [| discriminate].
    destruct (load w _) as [lock_data |]; [| reflexivity].
    destruct (scan _ lock_data); [discriminate | reflexivity].
  - rewrite main_cases. cbv zeta.
    destruct (isfile w _); cbn [negb]; [| eexists; reflexivity].
    destruct (load w _) as [lock_data |]; [| exists []; cbn; rewrite app_nil_r; reflexivity].
    destruct (scan _ lock_data); [eexists; reflexivity |].
    exists []. cbn. rewrite app_nil_r. reflexivity.
  - intros r Hr. apply main_prints_document in Hr as (_ & Hjson & _).
    rewrite parse_args_general in Hjson. cbn [snd orb] in Hjson.
    apply existsb_exists in Hjson as (arg & Hin & Heq).
    apply String.eqb_eq in Heq. subst arg. exact Hin.
Qed.

End NpmScanMore.
